(** * jogodavelha: the tic-tac-toe rule engine and the room coordinator

    A shallow embedding of [server.js]: the class [TicTacToeGame], the
    room-code generator and the five socket event handlers, followed by
    the properties of the design document that are stated about them.

    Conventions of the embedding.
    - A JS string that names a connection ([socket.id]) or a room is a
      [string].  Socket ids are tokens issued by the transport (twenty
      characters of the URL-safe base64 alphabet); they never spell a
      property that a plain object inherits from [Object.prototype], so
      [obj[id]] is an own-property lookup.
    - A handler that raises a [TypeError] has result [TypeError]; nothing
      catches it in [server.js].
    - The two [Map]s are finite maps; the plain object [game.players] is
      an association list in insertion order, the order [Object.keys]
      enumerates.
    - String literals are the bytes of the source file. *)

From Stdlib Require Import ZArith Lia Ascii String.
From stdpp Require Import base strings list gmap.

(** ** JS values and helpers *)

(** A computation that either completes with a value or raises the
    [TypeError] of reading a property of [undefined]. *)
Inductive completion (A : Type) : Type :=
  | Normal (a : A)
  | TypeError.
Arguments Normal {A} a.
Arguments TypeError {A}.

#[global] Instance completion_ret : MRet completion := λ A a, Normal a.

#[global] Instance completion_bind : MBind completion := λ A B k c,
  match c with
  | Normal a => k a
  | TypeError => TypeError
  end.

(** [o[k]] on a plain object whose own properties are listed in insertion
    order; [None] is [undefined]. *)
Fixpoint obj_get {A : Type} (o : list (string * A)) (k : string) : option A :=
  match o with
  | [] => None
  | (k', v) :: o' => if decide (k' = k) then Some v else obj_get o' k
  end.

(** [o[k] = v]: an existing property keeps its place, a new one goes last. *)
Fixpoint obj_set {A : Type} (o : list (string * A)) (k : string) (v : A)
  : list (string * A) :=
  match o with
  | [] => [(k, v)]
  | (k', v') :: o' =>
      if decide (k' = k) then (k, v) :: o' else (k', v') :: obj_set o' k v
  end.

(** ** class TicTacToeGame *)

Module Game.

(** The two player symbols ['X'] and ['O']. *)
Inductive mark : Set := X | O.

(** What a board slot holds: [''], ['X'] or ['O']. *)
Inductive cell : Set := Blank | Mark (m : mark).

(** [this.winner]: [null], a symbol, or ['draw']. *)
Inductive result : Set := Null | Won (m : mark) | Draw.

#[global] Instance mark_eq_dec : EqDecision mark.
Proof. solve_decision. Defined.

#[global] Instance cell_eq_dec : EqDecision cell.
Proof. solve_decision. Defined.

#[global] Instance result_eq_dec : EqDecision result.
Proof. solve_decision. Defined.

(** An entry of [game.players]. *)
Record player : Set := { name : string; symbol : mark; isHost : bool }.

Record TicTacToeGame : Set := {
  board : list cell;
  currentPlayer : mark;
  players : list (string * player);
  gameActive : bool;
  winner : result
}.

(** [Array(9).fill('')] *)
Definition empty_board : list cell := replicate 9 Blank.

(** [constructor()] *)
Definition new_game : TicTacToeGame :=
  {| board := empty_board; currentPlayer := X; players := [];
     gameActive := false; winner := Null |}.

(** [this.board[index]]: [None] is [undefined], the value of an index that
    is not an element of the array. *)
Definition board_get (b : list cell) (index : Z) : option cell :=
  if decide (0 ≤ index)%Z then b !! Z.to_nat index else None.

(** [this.board[index] = v].  In [makeMove] the assignment comes after the
    test [this.board[index] === ''], so [index] is an element of the array
    there (lemma [blank_in_range]); outside the array this function leaves
    the list alone. *)
Definition board_set (b : list cell) (index : Z) (v : cell) : list cell :=
  if decide (0 ≤ index)%Z then <[Z.to_nat index := v]> b else b.

(** [x !== ''] for a value read from the board. *)
Definition not_blank (v : option cell) : bool :=
  match v with
  | Some Blank => false
  | _ => true
  end.

(** Truthiness of a value read from the board: [undefined] and [''] are
    falsy, a symbol is truthy. *)
Definition truthy (v : option cell) : bool :=
  match v with
  | Some (Mark _) => true
  | _ => false
  end.

Definition winPatterns : list (Z * Z * Z) :=
  [ (0, 1, 2); (3, 4, 5); (6, 7, 8);
    (0, 3, 6); (1, 4, 7); (2, 5, 8);
    (0, 4, 8); (2, 4, 6) ]%Z.

(** [checkWinner()] *)
Definition checkWinner (b : list cell) : bool :=
  existsb (λ pattern : Z * Z * Z,
             let '(a, b', c) := pattern in
             truthy (board_get b a)
             && bool_decide (board_get b a = board_get b b')
             && bool_decide (board_get b a = board_get b c))
          winPatterns.

(** [this.board.every(cell => cell !== '')] *)
Definition board_full (b : list cell) : bool :=
  forallb (λ c, not_blank (Some c)) b.

(** [this.currentPlayer === 'X' ? 'O' : 'X'] *)
Definition other (m : mark) : mark :=
  match m with
  | X => O
  | O => X
  end.

(** [makeMove(index, playerId)]: the returned boolean and the game after
    the call. *)
Definition makeMove (index : Z) (playerId : string) (g : TicTacToeGame)
  : completion (bool * TicTacToeGame) :=
  if not_blank (board_get (board g) index) || negb (gameActive g)
  then Normal (false, g)
  else
    match obj_get (players g) playerId with
    | None => TypeError
    | Some p =>
        let playerSymbol := symbol p in
        if negb (bool_decide (playerSymbol = currentPlayer g))
        then Normal (false, g)
        else
          let b := board_set (board g) index (Mark playerSymbol) in
          if checkWinner b then
            Normal (true, {| board := b; currentPlayer := currentPlayer g;
                             players := players g; gameActive := false;
                             winner := Won playerSymbol |})
          else if board_full b then
            Normal (true, {| board := b; currentPlayer := currentPlayer g;
                             players := players g; gameActive := false;
                             winner := Draw |})
          else
            Normal (true, {| board := b;
                             currentPlayer := other (currentPlayer g);
                             players := players g;
                             gameActive := gameActive g;
                             winner := winner g |})
    end.

(** [reset()] *)
Definition reset (g : TicTacToeGame) : TicTacToeGame :=
  {| board := empty_board; currentPlayer := X; players := players g;
     gameActive := true; winner := Null |}.

(** The assignments the handlers make to fields of a game from outside the
    class: [game.players[id] = p] and [game.gameActive = b]. *)
Definition set_player (id : string) (p : player) (g : TicTacToeGame)
  : TicTacToeGame :=
  {| board := board g; currentPlayer := currentPlayer g;
     players := obj_set (players g) id p;
     gameActive := gameActive g; winner := winner g |}.

Definition set_gameActive (b : bool) (g : TicTacToeGame) : TicTacToeGame :=
  {| board := board g; currentPlayer := currentPlayer g;
     players := players g; gameActive := b; winner := winner g |}.

(** *** Vocabulary of the properties *)

(** The eight winning triples in words: three rows, three columns and the
    two diagonals of the 3x3 grid whose cells are numbered row by row. *)
Definition row (x y z : Z) : Prop :=
  ∃ r : Z, (0 ≤ r < 3)%Z ∧ x = (3 * r)%Z ∧ y = (3 * r + 1)%Z ∧ z = (3 * r + 2)%Z.

Definition column (x y z : Z) : Prop :=
  ∃ k : Z, (0 ≤ k < 3)%Z ∧ x = k ∧ y = (k + 3)%Z ∧ z = (k + 6)%Z.

Definition diagonal (x y z : Z) : Prop :=
  (x = 0 ∧ y = 4 ∧ z = 8)%Z ∨ (x = 2 ∧ y = 4 ∧ z = 6)%Z.

Definition winning_triple (x y z : Z) : Prop :=
  row x y z ∨ column x y z ∨ diagonal x y z.

(** Marker [m] holds the three cells of some winning triple. *)
Definition three_in_line (b : list cell) (m : mark) : Prop :=
  ∃ x y z : Z, winning_triple x y z
    ∧ board_get b x = Some (Mark m)
    ∧ board_get b y = Some (Mark m)
    ∧ board_get b z = Some (Mark m).

(** Each of the nine cells holds a marker. *)
Definition filled (b : list cell) : Prop :=
  ∀ i : Z, (0 ≤ i < 9)%Z → ∃ m, board_get b i = Some (Mark m).

(** What every game object of the server satisfies (lemma
    [ServerFacts.reachable_sound]): the board has its nine slots, and a
    completed line belongs to the marker whose turn it is, the game having
    stopped on the move that completed it. *)
Record game_inv (g : TicTacToeGame) : Prop := {
  inv_slots : length (board g) = 9%nat;
  inv_lines : ∀ m, three_in_line (board g) m → m = currentPlayer g
}.

(** A test that decides [game_inv] on a given game. *)
Definition game_inv_test (g : TicTacToeGame) : bool :=
  bool_decide (length (board g) = 9%nat)
  && forallb (λ pattern : Z * Z * Z,
                let '(x, y, z) := pattern in
                match board_get (board g) x with
                | Some (Mark m) =>
                    negb (bool_decide (board_get (board g) y = Some (Mark m))
                          && bool_decide (board_get (board g) z = Some (Mark m)))
                    || bool_decide (m = currentPlayer g)
                | _ => true
                end)
             winPatterns.

(** A fresh engine, or one that was just reset: nothing on the board and
    ['X'] to move.  Who takes part and whether the game is switched on is
    left open, the handlers set both from outside. *)
Definition fresh (g : TicTacToeGame) : Prop :=
  board g = empty_board ∧ currentPlayer g = X.

(** [accepted_run g n g']: [n] calls of [makeMove], each of which returned
    [true], lead from [g] to [g']. *)
Inductive accepted_run (g : TicTacToeGame) : nat → TicTacToeGame → Prop :=
  | run_start : accepted_run g 0 g
  | run_move (n : nat) (g1 g2 : TicTacToeGame) (index : Z) (playerId : string) :
      accepted_run g n g1 →
      makeMove index playerId g1 = Normal (true, g2) →
      accepted_run g (S n) g2.

(** The marker of the move that follows [n] accepted ones when the two
    markers take turns and ['X'] begins. *)
Definition nth_mark (n : nat) : mark := if Nat.even n then X else O.

(** Plays the given moves in order and answers the game after the last
    one, provided every call returned [true]. *)
Fixpoint play (moves : list (Z * string)) (g : TicTacToeGame)
  : option TicTacToeGame :=
  match moves with
  | [] => Some g
  | (index, playerId) :: moves' =>
      match makeMove index playerId g with
      | Normal (true, g') => play moves' g'
      | _ => None
      end
  end.

(** The reading of "alternates on every accepted move" under which each
    accepted call hands the turn to the other marker, next to the other
    two parts of the alternation property. *)
Definition strict_alternation : Prop :=
  ∀ (g0 g g1 g2 : TicTacToeGame) (n k : nat) (index : Z) (playerId : string),
    fresh g0 → accepted_run g0 n g →
    makeMove index playerId g = Normal (true, g1) →
    accepted_run g1 k g2 →
    board_get (board g1) index = Some (Mark (nth_mark n))
    ∧ currentPlayer g1 = other (currentPlayer g)
    ∧ ∀ j m, board_get (board g1) j = Some (Mark m) →
             board_get (board g2) j = Some (Mark m).

(** Totality as the design document words it: whoever calls, the call
    returns, and a call that returns [false] has changed nothing. *)
Definition never_raises : Prop :=
  ∀ (g : TicTacToeGame) (index : Z) (playerId : string),
    ∃ ok g', makeMove index playerId g = Normal (ok, g')
             ∧ (ok = false → g' = g).

End Game.

(** ** generateRoomCode *)

Module RoomCode.

(** [s.substring(start, end)] for non-negative integer arguments: the
    arguments are swapped when [start > end] and both are clamped to the
    length of [s]. *)
Definition substring (s : string) (start end_ : nat) : string :=
  String.substring (start `min` end_)
                   ((start `max` end_) - (start `min` end_)) s.

(** [c.toUpperCase()] for a character of the ASCII range: the letters
    [a]..[z] move to [A]..[Z], every other character stays. *)
Definition upper (c : ascii) : ascii :=
  let n := nat_of_ascii c in
  if (97 <=? n)%nat && (n <=? 122)%nat then ascii_of_nat (n - 32) else c.

Fixpoint toUpperCase (s : string) : string :=
  match s with
  | EmptyString => EmptyString
  | String c s' => String (upper c) (toUpperCase s')
  end.

(** [generateRoomCode()], as a function of the string [random36] that
    [Math.random().toString(36)] evaluates to; both calls belong to the JS
    runtime. *)
Definition generateRoomCode (random36 : string) : string :=
  toUpperCase (substring random36 2 8).

(** The digit characters of radix 36: [0]..[9] then [a]..[z]. *)
Definition digit36 (d : Z) : ascii :=
  ascii_of_nat (Z.to_nat (if (d <? 10)%Z then 48 + d else 87 + d)%Z).

(** The digits of the fraction [n / d] in radix 36, for [0 ≤ n < d], by
    long division; at most [fuel] digits. *)
Fixpoint fraction36 (fuel : nat) (n d : Z) : string :=
  match fuel with
  | 0%nat => EmptyString
  | S fuel' =>
      if (n =? 0)%Z then EmptyString
      else String (digit36 (36 * n / d)) (fraction36 fuel' (36 * n mod d) d)
  end.

(** [x.toString(36)] for the number [x = n / 2^k] with [0 ≤ n < 2^k]:
    ["0"] for zero, otherwise ["0."] and the radix-36 expansion of [x],
    which ends after at most [k] digits.  A draw of [Math.random()] is
    such a number; the runtime prints the whole expansion when it is
    short (it stops earlier only on expansions longer than the precision
    of a double, which take [k] above 10). *)
Definition toString36 (n : Z) (k : nat) : string :=
  if (n =? 0)%Z then "0"
  else "0." +:+ fraction36 k n (2 ^ Z.of_nat k).

(** The characters a room code is meant to be made of. *)
Definition upper_alnum (c : ascii) : bool :=
  let n := nat_of_ascii c in
  ((48 <=? n)%nat && (n <=? 57)%nat) || ((65 <=? n)%nat && (n <=? 90)%nat).

Fixpoint all_chars (P : ascii → bool) (s : string) : bool :=
  match s with
  | EmptyString => true
  | String c s' => P c && all_chars P s'
  end.

(** The format of a room code: six characters, each a digit or an
    upper-case letter. *)
Definition well_formed_code (code : string) : Prop :=
  String.length code = 6%nat ∧ all_chars upper_alnum code = true.

(** The characters of a radix-36 numeral: digits and lower-case letters. *)
Definition lower_alnum (c : ascii) : bool :=
  let n := nat_of_ascii c in
  ((48 <=? n)%nat && (n <=? 57)%nat) || ((97 <=? n)%nat && (n <=? 122)%nat).

End RoomCode.

(** ** The socket event handlers *)

Module Server.

Import Game.

(** A value of the [rooms] map: [{ game, players }]. *)
Record room : Set := { game : TicTacToeGame; room_players : list string }.

(** A value of the [players] map: [{ roomCode, playerName }]. *)
Record playerData : Set := { roomCode : string; playerName : string }.

(** The two module-level maps. *)
Record state : Type := {
  rooms : gmap string room;
  players : gmap string playerData
}.

Definition init : state := {| rooms := ∅; players := ∅ |}.

(** An inbound event with the id of the socket it arrives on and a
    payload of the shape the client page sends: a player name, an object
    with a room code and a player name, an integer index.  [CreateRoom]
    also carries the string that [Math.random().toString(36)] evaluates
    to while the handler runs.  The payloads of other shapes that make a
    handler raise are in [request] below. *)
Inductive event : Set :=
  | CreateRoom (socket playerName random36 : string)
  | JoinRoom (socket roomCode playerName : string)
  | MakeMove (socket : string) (index : Z)
  | ResetGame (socket : string)
  | Disconnect (socket : string).

(** Where an emission is addressed: [socket.emit], [io.to(code).emit],
    [socket.to(code).emit]. *)
Inductive target : Set :=
  | ToSocket (socket : string)
  | ToRoom (code : string)
  | ToOthers (socket code : string).

(** The outbound events with their payload fields. *)
Inductive message : Set :=
  | roomCreated (roomCode : string) (playerSymbol : mark) (playerName : string)
  | playerJoined (playerName : string) (playerCount : nat)
  | roomJoined (roomCode : string) (playerSymbol : mark)
               (playerName opponentName : string)
  | opponentJoined (opponentName : string)
  | gameState (board : list cell) (currentPlayer : mark) (gameActive : bool)
              (players : list (string * player))
  | moveMade (index : Z) (player : mark) (board : list cell)
             (currentPlayer : mark) (gameActive : bool)
  | gameOver (winner : result) (winnerName : option string)
             (board : list cell)
  | gameReset (board : list cell) (currentPlayer : mark) (gameActive : bool)
  | playerDisconnected (playerName : string)
  | error (reason : string).

Definition emission : Set := target * message.

(** The sockets an emission reaches, given the members [group code] of the
    transport's group of each room code ([socket.join(code)] enters a
    socket, the transport removes it when it disconnects). *)
Definition recipients (group : string → list string) (t : target)
  : list string :=
  match t with
  | ToSocket socket => [socket]
  | ToRoom code => group code
  | ToOthers socket code => filter (λ id, id ≠ socket) (group code)
  end.

(** [o[k].field] style reads: [TypeError] when [o[k]] is [undefined]. *)
Definition obj_read {A : Type} (o : list (string * A)) (k : string)
  : completion A :=
  match obj_get o k with
  | Some v => Normal v
  | None => TypeError
  end.

(** [socket.on('createRoom', ...)] *)
Definition on_createRoom (socket playerName random36 : string) (st : state)
  : completion (state * list emission) :=
  let roomCode := RoomCode.generateRoomCode random36 in
  let game :=
    set_player socket {| name := playerName; symbol := X; isHost := true |}
               new_game in
  Normal
    ({| rooms := <[roomCode := {| game := game; room_players := [socket] |}]>
                   (rooms st);
        players := <[socket := {| roomCode := roomCode;
                                  playerName := playerName |}]> (players st) |},
     [ (ToSocket socket, roomCreated roomCode X playerName);
       (ToRoom roomCode, playerJoined playerName 1) ]).

(** [socket.on('joinRoom', ...)] *)
Definition on_joinRoom (socket roomCode playerName : string) (st : state)
  : completion (state * list emission) :=
  match rooms st !! roomCode with
  | None => Normal (st, [ (ToSocket socket, error "Sala não encontrada") ])
  | Some room =>
      if (2 <=? length (room_players room))%nat
      then Normal (st, [ (ToSocket socket, error "Sala cheia") ])
      else
        let members := room_players room ++ [socket] in
        let game :=
          set_gameActive true
            (set_player socket
               {| name := playerName; symbol := O; isHost := false |}
               (game room)) in
        let st' :=
          {| rooms := <[roomCode := {| game := game;
                                      room_players := members |}]> (rooms st);
             players := <[socket := {| roomCode := roomCode;
                                       playerName := playerName |}]>
                          (players st) |} in
        first ← match head members with
                | Some id => obj_read (Game.players game) id
                | None => TypeError
                end;
        Normal
          (st',
           [ (ToSocket socket,
              roomJoined roomCode O playerName (name first));
             (ToOthers socket roomCode, opponentJoined playerName);
             (ToRoom roomCode,
              gameState (board game) (currentPlayer game) (gameActive game)
                        (Game.players game)) ])
  end.

(** [Object.keys(game.players).find(id => game.players[id].symbol ===
    game.winner)] followed by [game.players[winnerId].name]. *)
Definition winner_name (g : TicTacToeGame) : completion string :=
  match
    find (λ id, match obj_get (Game.players g) id with
                | Some p => bool_decide (Won (symbol p) = winner g)
                | None => false
                end)
         (Game.players g).*1
  with
  | Some winnerId => p ← obj_read (Game.players g) winnerId; Normal (name p)
  | None => TypeError
  end.

(** [socket.on('makeMove', ...)] *)
Definition on_makeMove (socket : string) (index : Z) (st : state)
  : completion (state * list emission) :=
  match players st !! socket with
  | None => Normal (st, [])
  | Some data =>
      match rooms st !! roomCode data with
      | None => Normal (st, [])
      | Some room =>
          '(moveSuccess, game) ← Game.makeMove index socket (game room);
          let st' :=
            {| rooms := <[roomCode data :=
                            {| game := game;
                               room_players := room_players room |}]>
                          (rooms st);
               players := players st |} in
          if moveSuccess : bool then
            mover ← obj_read (Game.players game) socket;
            let made :=
              (ToRoom (roomCode data),
               moveMade index (symbol mover) (board game)
                        (currentPlayer game) (gameActive game)) in
            if negb (gameActive game) then
              winnerName ← (if bool_decide (winner game = Draw)
                            then Normal None
                            else n ← winner_name game; Normal (Some n));
              Normal (st', [ made;
                             (ToRoom (roomCode data),
                              gameOver (winner game) winnerName
                                       (board game)) ])
            else Normal (st', [ made ])
          else Normal (st', [])
      end
  end.

(** [socket.on('resetGame', ...)] *)
Definition on_resetGame (socket : string) (st : state)
  : completion (state * list emission) :=
  match players st !! socket with
  | None => Normal (st, [])
  | Some data =>
      match rooms st !! roomCode data with
      | None => Normal (st, [])
      | Some room =>
          let game := reset (game room) in
          Normal
            ({| rooms := <[roomCode data :=
                             {| game := game;
                                room_players := room_players room |}]>
                           (rooms st);
                players := players st |},
             [ (ToRoom (roomCode data),
                gameReset (board game) (currentPlayer game)
                          (gameActive game)) ])
      end
  end.

(** [socket.on('disconnect', ...)] *)
Definition on_disconnect (socket : string) (st : state)
  : completion (state * list emission) :=
  match players st !! socket with
  | None => Normal (st, [])
  | Some data =>
      match rooms st !! roomCode data with
      | Some room =>
          let members := filter (λ id, id ≠ socket) (room_players room) in
          Normal
            ({| rooms :=
                  if (length members =? 0)%nat
                  then delete (roomCode data) (rooms st)
                  else <[roomCode data :=
                           {| game := set_gameActive false (game room);
                              room_players := members |}]> (rooms st);
                players := delete socket (players st) |},
             [ (ToOthers socket (roomCode data),
                playerDisconnected (playerName data)) ])
      | None =>
          Normal ({| rooms := rooms st;
                     players := delete socket (players st) |}, [])
      end
  end.

(** One event, dispatched to its handler. *)
Definition handle (e : event) (st : state)
  : completion (state * list emission) :=
  match e with
  | CreateRoom socket playerName random36 =>
      on_createRoom socket playerName random36 st
  | JoinRoom socket roomCode playerName =>
      on_joinRoom socket roomCode playerName st
  | MakeMove socket index => on_makeMove socket index st
  | ResetGame socket => on_resetGame socket st
  | Disconnect socket => on_disconnect socket st
  end.

(** The handlers run to completion one after the other; an uncaught
    [TypeError] ends the run. *)
Fixpoint run (es : list event) (st : state) : completion state :=
  match es with
  | [] => Normal st
  | e :: es' => '(st', _) ← handle e st; run es' st'
  end.

(** The states the server can be in. *)
Definition reachable (st : state) : Prop :=
  ∃ es, run es init = Normal st.

(** *** Payloads of other shapes *)

(** What a socket can send: an [event], or one of the two payloads on
    which a handler raises whatever the maps hold.  A [joinRoom] whose
    payload is [undefined] or [null] cannot be destructured by the
    parameter list [({ roomCode, playerName })] of the handler.  A
    [makeMove] whose index has no property key (an object that cannot be
    converted to a primitive value) fails at [this.board[index]]. *)
Inductive request : Set :=
  | WellFormed (e : event)
  | JoinRoomNullish (socket : string)
  | MakeMoveNoKey (socket : string).

(** One request, dispatched to its handler.  [joinRoom] raises before its
    first statement.  [makeMove] returns at the two tests on the maps and
    raises in the engine, whose first test reads [this.board[index]]. *)
Definition receive (r : request) (st : state)
  : completion (state * list emission) :=
  match r with
  | WellFormed e => handle e st
  | JoinRoomNullish _ => TypeError
  | MakeMoveNoKey socket =>
      match players st !! socket with
      | None => Normal (st, [])
      | Some data =>
          match rooms st !! roomCode data with
          | None => Normal (st, [])
          | Some _ => TypeError
          end
      end
  end.

Fixpoint serve (rs : list request) (st : state) : completion state :=
  match rs with
  | [] => Normal st
  | r :: rs' => '(st', _) ← receive r st; serve rs' st'
  end.

(** *** Vocabulary of the properties *)

(** What holds of the two maps whatever the events were (lemma
    [ServerFacts.reachable_sound]): a room has one or two entries in its
    member list, and its game satisfies [game_inv]. *)
Record sound (st : state) : Prop := {
  sound_members : ∀ code room, rooms st !! code = Some room →
    (1 ≤ length (room_players room) ≤ 2)%nat;
  sound_games : ∀ code room, rooms st !! code = Some room →
    game_inv (game room)
}.

(** Every member of a room is a key of [game.players] (lemma
    [ServerFacts.reachable_members_known]). *)
Definition members_known (st : state) : Prop :=
  ∀ code room id, rooms st !! code = Some room →
    id ∈ room_players room →
    is_Some (obj_get (Game.players (game room)) id).

(** The connection [t] is in the room of [code]: the [players] map binds
    it to that code, which it does from the socket's [createRoom] or
    [joinRoom] until its [disconnect]. *)
Definition in_room (st : state) (code t : string) : Prop :=
  ∃ data, players st !! t = Some data ∧ roomCode data = code.

(** The room has one member, in both senses the words can have: its
    member list has one entry, and the socket of that entry is the one
    connection in the room. *)
Definition one_member (st : state) (code : string) (room : room) : Prop :=
  ∃ s, room_players room = [s] ∧ ∀ t, in_room st code t ↔ t = s.

(** The state of the flag [gameActive] read on the member list of a room:
    the game is off exactly when it has ended (there is a winner or a
    draw) or the list has a single entry.  An auxiliary of the invariant
    [coherent] below. *)
Definition flag_as_described (room : room) : Prop :=
  gameActive (game room) = false ↔
  winner (game room) ≠ Null ∨ length (room_players room) = 1%nat.

(** What the design document says of the flag, in the two parts that do
    not depend on how "member" is read: in every reachable state the
    game of a room with one member is off, and so is a game that has
    ended. *)
Definition flag_as_stated : Prop :=
  ∀ st, reachable st →
    ∀ code room, rooms st !! code = Some room →
      (one_member st code room → gameActive (game room) = false)
      ∧ (winner (game room) ≠ Null → gameActive (game room) = false).

(** The three situations in which a handler sets the flag without regard
    to the description above, as a test on the event and the state it
    arrives in: [resetGame] from a socket whose room has a single member,
    [joinRoom] into a room whose game has a winner or a draw, and
    [createRoom] drawing the code of a room that exists.  [regular]
    answers [true] when the event is none of the three. *)
Definition regular (e : event) (st : state) : bool :=
  match e with
  | ResetGame socket =>
      match players st !! socket with
      | Some data =>
          match rooms st !! roomCode data with
          | Some room => negb (length (room_players room) =? 1)%nat
          | None => true
          end
      | None => true
      end
  | JoinRoom _ roomCode _ =>
      match rooms st !! roomCode with
      | Some room =>
          (2 <=? length (room_players room))%nat
          || bool_decide (winner (game room) = Null)
      | None => true
      end
  | CreateRoom _ _ random36 =>
      bool_decide (rooms st !! RoomCode.generateRoomCode random36 = None)
  | MakeMove _ _ | Disconnect _ => true
  end.

(** [regular] holds of every event of the run at the state it arrives
    in. *)
Fixpoint regular_run (es : list event) (st : state) : bool :=
  match es with
  | [] => true
  | e :: es' =>
      regular e st
      && match handle e st with
         | Normal (st', _) => regular_run es' st'
         | TypeError => true
         end
  end.

(** What holds in addition along regular runs: a socket that the
    [players] map binds to a room code is a member of the room of that
    code, and the flag is as described. *)
Record coherent (st : state) : Prop := {
  coherent_bound : ∀ socket data, players st !! socket = Some data →
    ∃ room, rooms st !! roomCode data = Some room
            ∧ socket ∈ room_players room;
  coherent_flag : ∀ code room, rooms st !! code = Some room →
    flag_as_described room
}.

(** The error replies of [joinRoom] with the reason strings of the design
    document. *)
Definition join_errors_as_stated : Prop :=
  ∀ (st : state) (socket roomCode playerName : string),
    (rooms st !! roomCode = None →
     handle (JoinRoom socket roomCode playerName) st
     = Normal (st, [ (ToSocket socket, error "room not found") ]))
    ∧ (∀ room, rooms st !! roomCode = Some room →
       (2 ≤ length (room_players room))%nat →
       handle (JoinRoom socket roomCode playerName) st
       = Normal (st, [ (ToSocket socket, error "room full") ])).

(** [createRoom] and [joinRoom] come from a socket that the [players] map
    does not bind: a connection takes part in one room at most. *)
Definition unbound_sender (e : event) (st : state) : bool :=
  match e with
  | CreateRoom socket _ _ | JoinRoom socket _ _ =>
      bool_decide (players st !! socket = None)
  | MakeMove _ _ | ResetGame _ | Disconnect _ => true
  end.

(** An event that is [regular] and comes from an [unbound_sender]. *)
Definition orderly (e : event) (st : state) : bool :=
  regular e st && unbound_sender e st.

(** [orderly] holds of every event of the run at the state it arrives
    in. *)
Fixpoint orderly_run (es : list event) (st : state) : bool :=
  match es with
  | [] => true
  | e :: es' =>
      orderly e st
      && match handle e st with
         | Normal (st', _) => orderly_run es' st'
         | TypeError => true
         end
  end.

(** The member list of every room names the connections in the room,
    each once. *)
Definition members_exact (st : state) : Prop :=
  ∀ code room, rooms st !! code = Some room →
    NoDup (room_players room)
    ∧ ∀ t, t ∈ room_players room ↔ in_room st code t.

End Server.

(** ** Concrete games and event sequences *)

Module Scenario.

Import Game Server.

Definition alice : player := {| name := "Alice"; symbol := X; isHost := true |}.
Definition bob : player := {| name := "Bob"; symbol := O; isHost := false |}.

(** The game of a room that socket [s1] created and socket [s2] joined. *)
Definition started : TicTacToeGame :=
  set_gameActive true (set_player "s2" bob (set_player "s1" alice new_game)).

(** A game of the same two players that is on, with a given board and
    turn. *)
Definition position (b : list cell) (turn : mark) : TicTacToeGame :=
  {| board := b; currentPlayer := turn;
     Game.players := [("s1", alice); ("s2", bob)];
     gameActive := true; winner := Null |}.

(** Four moves after which ['X'] can complete the top row. *)
Definition top_row_moves : list (Z * string) :=
  [ (0, "s1"); (3, "s2"); (1, "s1"); (4, "s2") ]%Z.

Definition top_row_open : TicTacToeGame :=
  position [ Mark X; Mark X; Blank;
             Mark O; Mark O; Blank;
             Blank; Blank; Blank ] X.

Definition top_row_won : TicTacToeGame :=
  {| board := [ Mark X; Mark X; Mark X;
                Mark O; Mark O; Blank;
                Blank; Blank; Blank ];
     currentPlayer := X;
     Game.players := [("s1", alice); ("s2", bob)];
     gameActive := false; winner := Won X |}.

(** Eight cells taken, no line yet, and the last cell completes the
    diagonal 0-4-8 for ['X']. *)
Definition last_cell_open : TicTacToeGame :=
  position [ Mark X; Mark O; Mark O;
             Mark O; Mark X; Mark X;
             Mark X; Mark O; Blank ] X.

Definition last_cell_won : TicTacToeGame :=
  {| board := [ Mark X; Mark O; Mark O;
                Mark O; Mark X; Mark X;
                Mark X; Mark O; Mark X ];
     currentPlayer := X;
     Game.players := [("s1", alice); ("s2", bob)];
     gameActive := false; winner := Won X |}.

(** A numeral that [Math.random().toString(36)] can evaluate to, and the
    room code [generateRoomCode] cuts out of it. *)
Definition numeral : string := "0.4fzyo82mvyr".
Definition code : string := "4FZYO8".

(** A socket creates a room and, alone in it, asks for a reset. *)
Definition lone_reset_events : list event :=
  [ CreateRoom "s1" "Alice" numeral; ResetGame "s1" ].

Definition lone_reset_room : room :=
  {| game := {| board := empty_board; currentPlayer := X;
                Game.players := [("s1", alice)];
                gameActive := true; winner := Null |};
     room_players := ["s1"] |}.

Definition lone_reset_state : state :=
  {| rooms := {[ code := lone_reset_room ]};
     players := {[ "s1" := {| roomCode := code; playerName := "Alice" |} ]} |}.

(** Two players meet and 'X' takes the top row. *)
Definition won_game_events : list event :=
  [ CreateRoom "s1" "Alice" numeral; JoinRoom "s2" code "Bob";
    MakeMove "s1" 0; MakeMove "s2" 3; MakeMove "s1" 1; MakeMove "s2" 4;
    MakeMove "s1" 2 ].

Definition won_game_room : room :=
  {| game := top_row_won; room_players := ["s1"; "s2"] |}.

Definition won_game_state : state :=
  {| rooms := {[ code := won_game_room ]};
     players :=
       {[ "s1" := {| roomCode := code; playerName := "Alice" |};
          "s2" := {| roomCode := code; playerName := "Bob" |} ]} |}.

(** After the won game the loser leaves and a third socket joins. *)
Definition rejoin_events : list event :=
  won_game_events ++ [ Disconnect "s2"; JoinRoom "s3" code "Carol" ].

(** Two [createRoom] requests draw the same numeral, so the second room
    takes the place of the first under the same code while socket [s1]
    stays bound to that code; a third socket joins the second room. *)
Definition collision_events : list event :=
  [ CreateRoom "s1" "Alice" numeral; CreateRoom "s2" "Bob" numeral;
    JoinRoom "s3" code "Carol" ].

(** The five moves of the won game, the last one completing the top
    row. *)
Definition top_row_game : list (Z * string) :=
  top_row_moves ++ [ (2, "s1") ]%Z.

(** The position after 'X' has opened a reset game in the centre. *)
Definition centre_opened : TicTacToeGame :=
  {| board := [ Blank; Blank; Blank; Blank; Mark X; Blank;
                Blank; Blank; Blank ];
     currentPlayer := O;
     Game.players := [("s1", alice); ("s2", bob)];
     gameActive := true; winner := Null |}.

Definition carol : player :=
  {| name := "Carol"; symbol := O; isHost := false |}.

(** The game of a room whose second member left and was replaced: the
    entry of the departed socket [s2] is still there, before the entry of
    [s3], and 'O' has taken the middle row. *)
Definition replaced_guest_won : TicTacToeGame :=
  {| board := [ Mark X; Mark X; Blank;
                Mark O; Mark O; Mark O;
                Mark X; Blank; Blank ];
     currentPlayer := O;
     Game.players := [("s1", alice); ("s2", bob); ("s3", carol)];
     gameActive := false; winner := Won O |}.

(** The state after socket [s1] has created a room and [s2] has joined
    it. *)
Definition paired_events : list event :=
  [ CreateRoom "s1" "Alice" numeral; JoinRoom "s2" code "Bob" ].

Definition paired_state : state :=
  {| rooms := {[ code := {| game := started;
                            room_players := ["s1"; "s2"] |} ]};
     players :=
       {[ "s1" := {| roomCode := code; playerName := "Alice" |};
          "s2" := {| roomCode := code; playerName := "Bob" |} ]} |}.

(** The room of the won game after the loser has left, and the game
    that a third socket finds and continues when it joins. *)
Definition left_alone_state : state :=
  {| rooms := {[ code := {| game := set_gameActive false top_row_won;
                            room_players := ["s1"] |} ]};
     players := {[ "s1" := {| roomCode := code; playerName := "Alice" |} ]} |}.

Definition rejoined_game : TicTacToeGame :=
  {| board := board top_row_won; currentPlayer := X;
     Game.players := [("s1", alice); ("s2", bob); ("s3", carol)];
     gameActive := true; winner := Won X |}.

(** Two players meet and the second one leaves before any move. *)
Definition departed_events : list event :=
  [ CreateRoom "s1" "Alice" numeral; JoinRoom "s2" code "Bob";
    Disconnect "s2" ].

Definition departed_room : room :=
  {| game := set_gameActive false started; room_players := ["s1"] |}.

Definition departed_state : state :=
  {| rooms := {[ code := departed_room ]};
     players := {[ "s1" := {| roomCode := code; playerName := "Alice" |} ]} |}.

(** A socket creates a room and joins it itself. *)
Definition self_join_events : list event :=
  [ CreateRoom "s1" "Alice" numeral; JoinRoom "s1" code "Alice" ].

Definition self_join_room : room :=
  {| game :=
       set_gameActive true
         (set_player "s1" {| name := "Alice"; symbol := O; isHost := false |}
            (set_player "s1" alice new_game));
     room_players := ["s1"; "s1"] |}.

Definition self_join_state : state :=
  {| rooms := {[ code := self_join_room ]};
     players := {[ "s1" := {| roomCode := code; playerName := "Alice" |} ]} |}.

(** Two players meet; the second one creates a room of its own, under
    another code, and leaves. *)
Definition other_numeral : string := "0.7k2m9x1qpl4".

Definition rebinding_events : list event :=
  [ CreateRoom "s1" "Alice" numeral; JoinRoom "s2" code "Bob";
    CreateRoom "s2" "Bob" other_numeral; Disconnect "s2" ].

Definition rebinding_room : room :=
  {| game := started; room_players := ["s1"; "s2"] |}.

Definition rebinding_state : state :=
  {| rooms := {[ code := rebinding_room ]};
     players := {[ "s1" := {| roomCode := code; playerName := "Alice" |} ]} |}.

End Scenario.

(** ** Measures and invariants of the further properties *)

Module Derived.

Import Game Server.

(** The number of slots of a board that hold [c]. *)
Definition count_cell (c : cell) (b : list cell) : nat :=
  length (filter (λ x, x = c) b).

(** The recorded result agrees with the board: no result while no line is
    complete and a cell is free, a winner who holds a line and was the
    last to move, a draw on a full board without a line. *)
Definition verdict_agrees (g : TicTacToeGame) : Prop :=
  match winner g with
  | Null => (¬ ∃ m, three_in_line (board g) m) ∧ ¬ filled (board g)
  | Won m => three_in_line (board g) m ∧ currentPlayer g = m
  | Draw => filled (board g) ∧ ¬ ∃ m, three_in_line (board g) m
  end.

(** The entries of [game.players]: one entry per key, and the host flag
    set exactly on the entries with symbol ['X']. *)
Definition participants_ok (ps : list (string * player)) : Prop :=
  NoDup ps.*1 ∧ Forall (λ kv, symbol kv.2 = X ↔ isHost kv.2 = true) ps.

(** [createRoom] draws a code under which no room is stored. *)
Definition fresh_code (e : event) (st : state) : bool :=
  match e with
  | CreateRoom _ _ random36 =>
      bool_decide (rooms st !! RoomCode.generateRoomCode random36 = None)
  | _ => true
  end.

(** [fresh_code] holds of every [createRoom] of the run at the state it
    arrives in. *)
Fixpoint collision_free (es : list event) (st : state) : bool :=
  match es with
  | [] => true
  | e :: es' =>
      fresh_code e st
      && match handle e st with
         | Normal (st', _) => collision_free es' st'
         | TypeError => true
         end
  end.

(** The [players] map agrees with the rooms: a bound socket is a member
    of the room of its code and takes part in that room's game under the
    name it is bound with. *)
Definition index_agrees (st : state) : Prop :=
  ∀ socket data, players st !! socket = Some data →
    ∃ room p, rooms st !! roomCode data = Some room
      ∧ socket ∈ room_players room
      ∧ obj_get (Game.players (game room)) socket = Some p
      ∧ name p = playerName data.

(** [P] holds of the game of every room. *)
Definition all_games (P : TicTacToeGame → Prop) (st : state) : Prop :=
  ∀ code room, rooms st !! code = Some room → P (game room).

(** The state in which [handle (MakeMove ...)] leaves the maps when the
    engine has turned the game of the sender's room into [g]. *)
Definition with_game (st : state) (code : string) (room : room)
    (g : TicTacToeGame) : state :=
  {| rooms := <[code := {| game := g; room_players := room_players room |}]>
                (rooms st);
     players := players st |}.

End Derived.

(** * Properties of the rule engine *)

Module GameFacts.

Import Game.

(** ** Reading and writing a plain object *)

Lemma obj_get_set_eq {A : Type} (o : list (string * A)) (k : string) (v : A) :
  obj_get (obj_set o k v) k = Some v.
Proof.
  induction o as [|[k' v'] o IH]; simpl.
  - by rewrite decide_True.
  - destruct (decide (k' = k)) as [->|Hne]; simpl.
    + by rewrite decide_True.
    + by rewrite decide_False.
Qed.

Lemma obj_get_set_ne {A : Type} (o : list (string * A)) (k k' : string) (v : A) :
  k ≠ k' → obj_get (obj_set o k v) k' = obj_get o k'.
Proof.
  intros Hne. induction o as [|[k0 v0] o IH]; simpl.
  - by rewrite decide_False.
  - destruct (decide (k0 = k)) as [->|Hk]; simpl.
    + by rewrite !decide_False.
    + by rewrite IH.
Qed.

Lemma obj_get_key {A : Type} (o : list (string * A)) (k : string) (v : A) :
  obj_get o k = Some v → k ∈ o.*1.
Proof.
  induction o as [|[k' v'] o IH]; simpl; [done|].
  destruct (decide (k' = k)) as [->|Hne].
  - intros _. apply elem_of_cons. by left.
  - intros H. apply elem_of_cons. right. by apply IH.
Qed.

(** ** Reading and writing the board *)

Lemma board_get_Some (b : list cell) (index : Z) (v : cell) :
  board_get b index = Some v →
  (0 ≤ index < Z.of_nat (length b))%Z ∧ b !! Z.to_nat index = Some v.
Proof.
  unfold board_get. case_decide; [|done].
  intros Hv. split; [|done].
  apply lookup_lt_Some in Hv. lia.
Qed.

(** A slot that reads [''] is one of the slots of the array: the
    assignment of [makeMove] never falls outside it. *)
Lemma blank_in_range (b : list cell) (index : Z) :
  not_blank (board_get b index) = false →
  (0 ≤ index < Z.of_nat (length b))%Z ∧ board_get b index = Some Blank.
Proof.
  destruct (board_get b index) as [[|m]|] eqn:Hv; try done.
  intros _. split; [|done]. by apply board_get_Some in Hv as [? _].
Qed.

Lemma board_get_outside (b : list cell) (index : Z) :
  (index < 0 ∨ Z.of_nat (length b) ≤ index)%Z → board_get b index = None.
Proof.
  intros Hout. unfold board_get. case_decide; [|done].
  apply lookup_ge_None. lia.
Qed.

Lemma board_set_length (b : list cell) (index : Z) (v : cell) :
  length (board_set b index v) = length b.
Proof. unfold board_set. case_decide; [apply length_insert|done]. Qed.

Lemma board_get_set_eq (b : list cell) (index : Z) (v : cell) :
  (0 ≤ index < Z.of_nat (length b))%Z →
  board_get (board_set b index v) index = Some v.
Proof.
  intros Hin. unfold board_get, board_set.
  rewrite !decide_True by lia. apply list_lookup_insert_eq. lia.
Qed.

Lemma board_get_set_ne (b : list cell) (index j : Z) (v : cell) :
  index ≠ j → board_get (board_set b index v) j = board_get b j.
Proof.
  intros Hne. unfold board_get, board_set.
  destruct (decide (0 ≤ j)%Z); [|done].
  destruct (decide (0 ≤ index)%Z); [|done].
  apply list_lookup_insert_ne. lia.
Qed.

(** A write into a blank slot keeps every marker that is on the board. *)
Lemma board_set_keeps (b : list cell) (index j : Z) (v : cell) (m : mark) :
  board_get b index = Some Blank →
  board_get b j = Some (Mark m) →
  board_get (board_set b index v) j = Some (Mark m).
Proof.
  intros Hblank Hm. destruct (decide (index = j)) as [->|Hne].
  - congruence.
  - by rewrite board_get_set_ne.
Qed.

(** ** The table of [checkWinner] and the eight lines of the grid *)

Lemma winPatterns_lines (x y z : Z) :
  In (x, y, z) winPatterns ↔ winning_triple x y z.
Proof.
  unfold winning_triple, row, column, diagonal. split.
  - simpl. intros H.
    repeat destruct H as [H|H]; simplify_eq;
      first [ left; exists 0%Z; lia | left; exists 1%Z; lia
            | left; exists 2%Z; lia
            | right; left; exists 0%Z; lia | right; left; exists 1%Z; lia
            | right; left; exists 2%Z; lia | right; right; lia ].
  - intros [(r & Hr & -> & -> & ->)|[(k & Hk & -> & -> & ->)|H]].
    + assert (r = 0 ∨ r = 1 ∨ r = 2)%Z as [-> | [-> | ->] ] by lia; simpl; tauto.
    + assert (k = 0 ∨ k = 1 ∨ k = 2)%Z as [-> | [-> | ->] ] by lia; simpl; tauto.
    + destruct H as [(-> & -> & ->) | (-> & -> & ->)]; simpl; tauto.
Qed.

(** [checkWinner] answers [true] exactly when a marker holds a line. *)
Lemma checkWinner_true (b : list cell) :
  checkWinner b = true ↔ ∃ m, three_in_line b m.
Proof.
  unfold checkWinner, three_in_line. rewrite existsb_exists. split.
  - intros ([[x y] z] & Hin & Htest).
    apply andb_prop in Htest as [Htest Hz]. apply andb_prop in Htest as [Hx Hy].
    apply bool_decide_eq_true in Hy, Hz.
    destruct (board_get b x) as [[|m]|] eqn:Ex; try done.
    exists m, x, y, z. by rewrite <- winPatterns_lines.
  - intros (m & x & y & z & Hline & Hx & Hy & Hz).
    exists (x, y, z). rewrite winPatterns_lines. split; [done|].
    rewrite Hx, Hy, Hz. simpl. by rewrite !bool_decide_eq_true_2.
Qed.

Lemma checkWinner_false (b : list cell) :
  checkWinner b = false ↔ ¬ ∃ m, three_in_line b m.
Proof.
  rewrite <- checkWinner_true. destruct (checkWinner b); naive_solver.
Qed.

(** On a board of nine slots [every(cell => cell !== '')] says that all
    nine cells are taken. *)
Lemma board_full_true (b : list cell) :
  length b = 9%nat → board_full b = true ↔ filled b.
Proof.
  intros Hlen. unfold board_full, filled. rewrite forallb_forall. split.
  - intros Hall i Hi.
    destruct (lookup_lt_is_Some_2 b (Z.to_nat i)) as [c Hc]; [lia|].
    assert (board_get b i = Some c) as Hget.
    { unfold board_get. by rewrite decide_True by lia. }
    rewrite Hget. specialize (Hall c).
    destruct c as [|m]; [|by exists m].
    discriminate Hall. apply list_elem_of_In. by eapply list_elem_of_lookup_2.
  - intros Hall c Hin.
    apply list_elem_of_In, list_elem_of_lookup_1 in Hin as [n Hn].
    pose proof (lookup_lt_Some _ _ _ Hn) as Hlt.
    destruct (Hall (Z.of_nat n)) as [m Hm]; [lia|].
    unfold board_get in Hm. rewrite decide_True in Hm by lia.
    rewrite Nat2Z.id in Hm. by simplify_eq.
Qed.

Lemma board_full_false (b : list cell) :
  length b = 9%nat → board_full b = false ↔ ¬ filled b.
Proof.
  intros Hlen. rewrite <- (board_full_true b Hlen).
  destruct (board_full b); naive_solver.
Qed.

(** ** The branches of [makeMove] *)

(** The early returns: nothing is written. *)
Lemma makeMove_false (index : Z) (playerId : string) (g g' : TicTacToeGame) :
  makeMove index playerId g = Normal (false, g') → g' = g.
Proof.
  unfold makeMove. intros H.
  repeat (case_match; simplify_eq; try done).
Qed.

(** The three ways in which a call returns [true]. *)
Lemma makeMove_true (index : Z) (playerId : string) (g g' : TicTacToeGame) :
  makeMove index playerId g = Normal (true, g') →
  gameActive g = true
  ∧ board_get (board g) index = Some Blank
  ∧ ∃ p, obj_get (players g) playerId = Some p
      ∧ symbol p = currentPlayer g
      ∧ board g' = board_set (board g) index (Mark (symbol p))
      ∧ players g' = players g
      ∧ (if checkWinner (board g') then
           winner g' = Won (symbol p) ∧ gameActive g' = false
           ∧ currentPlayer g' = currentPlayer g
         else if board_full (board g') then
           winner g' = Draw ∧ gameActive g' = false
           ∧ currentPlayer g' = currentPlayer g
         else
           winner g' = winner g ∧ gameActive g' = true
           ∧ currentPlayer g' = other (currentPlayer g)).
Proof.
  unfold makeMove. intros H.
  destruct (not_blank (board_get (board g) index)) eqn:Hblank; [done|].
  destruct (gameActive g) eqn:Hactive; [|done]. simpl in H.
  apply blank_in_range in Hblank as [_ Hblank].
  destruct (obj_get (players g) playerId) as [p|] eqn:Hp; [|done].
  destruct (bool_decide (symbol p = currentPlayer g)) eqn:Hturn; [|done].
  apply bool_decide_eq_true in Hturn. simpl in H.
  split; [done|]. split; [done|]. exists p.
  destruct (checkWinner (board_set (board g) index (Mark (symbol p)))) eqn:Hwin;
    [|destruct (board_full (board_set (board g) index (Mark (symbol p))))
        eqn:Hfull];
    simplify_eq; simpl; rewrite ?Hwin, ?Hfull; done.
Qed.

(** [makeMove] raises exactly when the game is on, the slot is blank and
    [this.players[playerId]] is [undefined]. *)
Lemma makeMove_TypeError (index : Z) (playerId : string) (g : TicTacToeGame) :
  makeMove index playerId g = TypeError ↔
  gameActive g = true ∧ board_get (board g) index = Some Blank
  ∧ obj_get (players g) playerId = None.
Proof.
  unfold makeMove. split.
  - intros H.
    destruct (not_blank (board_get (board g) index)) eqn:Hblank; [done|].
    destruct (gameActive g) eqn:Hactive; [|done].
    apply blank_in_range in Hblank as [_ Hblank].
    repeat (case_match; simplify_eq; try done).
  - intros (-> & -> & ->). done.
Qed.

(** A call made for a participant of the game returns. *)
Lemma makeMove_participant (index : Z) (playerId : string)
    (g : TicTacToeGame) (p : player) :
  obj_get (players g) playerId = Some p →
  ∃ ok g', makeMove index playerId g = Normal (ok, g').
Proof.
  intros Hp. destruct (makeMove index playerId g) as [[ok g']|] eqn:H.
  - by exists ok, g'.
  - apply makeMove_TypeError in H as (_ & _ & H). congruence.
Qed.

(** [makeMove] does not touch [this.players]. *)
Lemma makeMove_players (index : Z) (playerId : string) (ok : bool)
    (g g' : TicTacToeGame) :
  makeMove index playerId g = Normal (ok, g') → players g' = players g.
Proof.
  intros H. destruct ok.
  - by apply makeMove_true in H as (_ & _ & p & _ & _ & _ & ? & _).
  - by apply makeMove_false in H as ->.
Qed.

(** ** The invariant of a game *)

Lemma game_inv_test_correct (g : TicTacToeGame) :
  game_inv_test g = true → game_inv g.
Proof.
  unfold game_inv_test. intros H. apply andb_prop in H as [Hlen Hall].
  apply bool_decide_eq_true in Hlen. split; [done|].
  intros m (x & y & z & Hline & Hx & Hy & Hz).
  rewrite forallb_forall in Hall.
  apply winPatterns_lines, Hall in Hline.
  rewrite Hx, Hy, Hz in Hline.
  rewrite !bool_decide_eq_true_2 in Hline by done. simpl in Hline.
  by apply bool_decide_eq_true in Hline.
Qed.

Lemma empty_board_no_line (m : mark) : ¬ three_in_line empty_board m.
Proof.
  intros (x & y & z & Hline & Hx & _).
  apply board_get_Some in Hx as [Hx Hcell].
  change (length empty_board) with 9%nat in Hx.
  assert (Z.to_nat x < 9)%nat as Hlt by lia.
  unfold empty_board in Hcell.
  rewrite lookup_replicate_2 in Hcell by done. done.
Qed.

Lemma new_game_inv : game_inv new_game.
Proof.
  split; [done|]. intros m Hm. by apply empty_board_no_line in Hm.
Qed.

Lemma reset_inv (g : TicTacToeGame) : game_inv (reset g).
Proof.
  split; [done|]. intros m Hm. by apply empty_board_no_line in Hm.
Qed.

Lemma set_player_inv (id : string) (p : player) (g : TicTacToeGame) :
  game_inv g → game_inv (set_player id p g).
Proof. intros [? ?]. by split. Qed.

Lemma set_gameActive_inv (b : bool) (g : TicTacToeGame) :
  game_inv g → game_inv (set_gameActive b g).
Proof. intros [? ?]. by split. Qed.

(** After a write for the marker whose turn it is, every line on the
    board is a line of that marker. *)
Lemma lines_after_write (g : TicTacToeGame) (index : Z) (m : mark) :
  game_inv g →
  board_get (board g) index = Some Blank →
  three_in_line (board_set (board g) index (Mark (currentPlayer g))) m →
  m = currentPlayer g.
Proof.
  intros [Hlen Hlines] Hblank (x & y & z & Hline & Hx & Hy & Hz).
  pose proof (board_get_Some _ _ _ Hblank) as [Hin _].
  assert (∀ j, board_get (board_set (board g) index
                            (Mark (currentPlayer g))) j = Some (Mark m) →
               j ≠ index → board_get (board g) j = Some (Mark m)) as Hold.
  { intros j Hj Hne. by rewrite board_get_set_ne in Hj. }
  assert (∀ j, board_get (board_set (board g) index
                            (Mark (currentPlayer g))) j = Some (Mark m) →
               j = index → m = currentPlayer g) as Hnew.
  { intros j Hj ->. rewrite board_get_set_eq in Hj by done. congruence. }
  destruct (decide (x = index)); [by apply (Hnew x)|].
  destruct (decide (y = index)); [by apply (Hnew y)|].
  destruct (decide (z = index)); [by apply (Hnew z)|].
  apply Hlines. exists x, y, z.
  split; [done|]. split; [by apply Hold|]. split; by apply Hold.
Qed.

Lemma makeMove_inv (index : Z) (playerId : string) (ok : bool)
    (g g' : TicTacToeGame) :
  game_inv g → makeMove index playerId g = Normal (ok, g') → game_inv g'.
Proof.
  intros Hinv H. destruct ok.
  - apply makeMove_true in H
      as (_ & Hblank & p & _ & Hturn & Hboard & _ & Hcases).
    rewrite Hturn in Hboard. split.
    + rewrite Hboard, board_set_length. apply Hinv.
    + intros m Hm.
      destruct (checkWinner (board g')) eqn:Hwin.
      * destruct Hcases as (_ & _ & ->).
        rewrite Hboard in Hm. by eapply lines_after_write.
      * apply checkWinner_false in Hwin. destruct Hwin. by exists m.
  - by apply makeMove_false in H as ->.
Qed.

(** ** Runs of accepted moves *)

Lemma accepted_run_app (g g1 g2 : TicTacToeGame) (n k : nat) :
  accepted_run g n g1 → accepted_run g1 k g2 → accepted_run g (k + n) g2.
Proof.
  intros Hn Hk. induction Hk as [|k h1 h2 index playerId _ IH Hmove]; [done|].
  simpl. by eapply run_move.
Qed.

Lemma play_accepted_run (moves : list (Z * string)) (g g' : TicTacToeGame) :
  play moves g = Some g' → accepted_run g (length moves) g'.
Proof.
  revert g. induction moves as [|[index playerId] moves IH]; intros g H.
  - simpl in H. simplify_eq. constructor.
  - simpl in H.
    destruct (makeMove index playerId g) as [[[] g1]|] eqn:Hmove; try done.
    apply IH in H.
    replace (length ((index, playerId) :: moves)) with (length moves + 1)%nat
      by (simpl; lia).
    eapply accepted_run_app; [|done].
    eapply run_move; [constructor|done].
Qed.

(** While the game is on, the turn after [n] accepted moves is the
    marker of move number [n]. *)
Lemma accepted_run_turn (g0 g : TicTacToeGame) (n : nat) :
  fresh g0 → accepted_run g0 n g →
  gameActive g = true → currentPlayer g = nth_mark n.
Proof.
  intros [_ Hturn] Hrun.
  induction Hrun as [|n g1 g2 index playerId _ IH Hmove]; [done|].
  apply makeMove_true in Hmove as (Hactive & _ & p & _ & _ & _ & _ & Hcases).
  intros Hon.
  destruct (checkWinner (board g2)).
  { destruct Hcases as (_ & Hoff & _). congruence. }
  destruct (board_full (board g2)).
  { destruct Hcases as (_ & Hoff & _). congruence. }
  destruct Hcases as (_ & _ & ->). rewrite IH by done.
  unfold nth_mark. rewrite Nat.even_succ, <- Nat.negb_even.
  by destruct (Nat.even n).
Qed.

(** Accepted moves only ever add markers. *)
Lemma accepted_run_keeps (g g' : TicTacToeGame) (n : nat) (j : Z) (m : mark) :
  accepted_run g n g' →
  board_get (board g) j = Some (Mark m) →
  board_get (board g') j = Some (Mark m).
Proof.
  intros Hrun Hj.
  induction Hrun as [|n g1 g2 index playerId _ IH Hmove]; [done|].
  apply makeMove_true in Hmove as (_ & Hblank & p & _ & _ & -> & _).
  by apply board_set_keeps.
Qed.

End GameFacts.

(** * Properties of the room code *)

Module RoomCodeFacts.

Import RoomCode.

Lemma substring_length (s : string) (n m : nat) :
  String.length (String.substring n m s) = (m `min` (String.length s - n))%nat.
Proof.
  revert n m.
  induction s as [|c s IH]; intros [|n] [|m];
    cbn [String.substring String.length]; rewrite ?IH; lia.
Qed.

Lemma toUpperCase_length (s : string) :
  String.length (toUpperCase s) = String.length s.
Proof. induction s as [|c s IH]; simpl; congruence. Qed.

(** The code is the upper-cased text of positions 2 to 7 of the numeral,
    as far as the numeral reaches. *)
Lemma generateRoomCode_length (random36 : string) :
  String.length (generateRoomCode random36)
  = (6 `min` (String.length random36 - 2))%nat.
Proof.
  unfold generateRoomCode, substring.
  by rewrite toUpperCase_length, substring_length.
Qed.

Lemma upper_lower_alnum (c : ascii) :
  lower_alnum c = true → upper_alnum (upper c) = true.
Proof. by destruct c as [[] [] [] [] [] [] [] []]. Qed.

Lemma toUpperCase_alnum (s : string) :
  all_chars lower_alnum s = true → all_chars upper_alnum (toUpperCase s) = true.
Proof.
  induction s as [|c s IH]; [done|]. simpl.
  intros H. apply andb_prop in H as [Hc Hs].
  by rewrite upper_lower_alnum, IH.
Qed.

Lemma substring_all_chars (P : ascii → bool) (s : string) (n m : nat) :
  all_chars P s = true → all_chars P (String.substring n m s) = true.
Proof.
  revert n m. induction s as [|c s IH]; intros [|n] [|m]; simpl; try done.
  - intros H. apply andb_prop in H as [-> Hs]. by apply IH.
  - intros H. apply andb_prop in H as [_ Hs]. by apply IH.
  - intros H. apply andb_prop in H as [_ Hs]. by apply IH.
Qed.

(** A numeral [0.d1d2...] with at least six digits after the point gives
    a code of the intended format. *)
Lemma generateRoomCode_long (digits : string) :
  (6 ≤ String.length digits)%nat →
  all_chars lower_alnum digits = true →
  well_formed_code (generateRoomCode ("0." +:+ digits)).
Proof.
  intros Hlen Hdigits. split.
  - rewrite generateRoomCode_length.
    change ("0." +:+ digits) with (String "0" (String "." digits)).
    cbn [String.length]. lia.
  - unfold generateRoomCode, substring.
    change (String.substring (2 `min` 8) (2 `max` 8 - 2 `min` 8)
              ("0." +:+ digits))
      with (String.substring 0 6 digits).
    by apply toUpperCase_alnum, substring_all_chars.
Qed.

End RoomCodeFacts.

(** * The engine properties of the design document *)

Module GameProperties.

Import Game GameFacts Scenario.

(** C1 (as the code has it).  Along every run of accepted moves that
    starts from a fresh or freshly reset engine, move number [n] (counted
    from 0) finds [n]-th marker of the alternation X, O, X, ... on turn,
    writes that marker into a cell that was blank, and the cell keeps it
    through every later accepted move, as does every other taken cell.
    The turn passes to the other marker on every accepted move that
    leaves the game on; the move that ends the game (win or draw) leaves
    the turn with the mover, and no move is accepted after it. *)
Theorem accepted_moves_alternate
    (g0 g g1 g2 : TicTacToeGame) (n k : nat) (index : Z) (playerId : string) :
  fresh g0 → accepted_run g0 n g →
  makeMove index playerId g = Normal (true, g1) →
  accepted_run g1 k g2 →
  currentPlayer g = nth_mark n
  ∧ board_get (board g) index = Some Blank
  ∧ board_get (board g1) index = Some (Mark (nth_mark n))
  ∧ (gameActive g1 = true → currentPlayer g1 = other (currentPlayer g))
  ∧ (gameActive g1 = false → currentPlayer g1 = currentPlayer g ∧ k = 0%nat)
  ∧ ∀ j m, board_get (board g1) j = Some (Mark m) →
           board_get (board g2) j = Some (Mark m).
Proof.
  intros Hfresh Hrun Hmove Hlater.
  pose proof Hmove as Hm.
  apply makeMove_true in Hm
    as (Hactive & Hblank & p & _ & Hsym & Hboard & _ & Hcases).
  pose proof (accepted_run_turn _ _ _ Hfresh Hrun Hactive) as Hturn.
  pose proof (board_get_Some _ _ _ Hblank) as [Hin _].
  split; [done|]. split; [done|]. split.
  { rewrite Hboard, Hsym, Hturn. by apply board_get_set_eq. }
  split; [|split].
  - intros Hon.
    destruct (checkWinner (board g1)).
    { destruct Hcases as (_ & Hoff & _). congruence. }
    destruct (board_full (board g1)).
    { destruct Hcases as (_ & Hoff & _). congruence. }
    by destruct Hcases as (_ & _ & ->).
  - intros Hoff. split.
    + destruct (checkWinner (board g1)); [by destruct Hcases as (_ & _ & ->)|].
      destruct (board_full (board g1)); [by destruct Hcases as (_ & _ & ->)|].
      destruct Hcases as (_ & Hon & _). congruence.
    + destruct Hlater as [|k h1 h2 i id Hprefix Hnext]; [done|].
      clear Hcases. exfalso.
      assert (∀ h, accepted_run g1 k h → gameActive h = false) as Hstuck.
      { clear -Hoff. intros h Hh. induction Hh as [|k h1 h2 i id _ IH Hmv];
          [done|].
        apply makeMove_true in Hmv as (Hon & _). congruence. }
      apply makeMove_true in Hnext as (Hon & _).
      specialize (Hstuck _ Hprefix). congruence.
  - intros j m Hj. by eapply accepted_run_keeps.
Qed.

Lemma accepted_moves_alternate_witness :
  fresh started
  ∧ accepted_run started 4 top_row_open
  ∧ makeMove 2 "s1" top_row_open = Normal (true, top_row_won)
  ∧ accepted_run top_row_won 0 top_row_won
  ∧ currentPlayer top_row_open = nth_mark 4
  ∧ board_get (board top_row_open) 2 = Some Blank
  ∧ board_get (board top_row_won) 2 = Some (Mark (nth_mark 4))
  ∧ (gameActive top_row_won = true →
     currentPlayer top_row_won = other (currentPlayer top_row_open))
  ∧ (gameActive top_row_won = false →
     currentPlayer top_row_won = currentPlayer top_row_open ∧ 0%nat = 0%nat)
  ∧ ∀ j m, board_get (board top_row_won) j = Some (Mark m) →
           board_get (board top_row_won) j = Some (Mark m).
Proof.
  assert (fresh started) as H0 by (split; reflexivity).
  assert (accepted_run started 4 top_row_open) as H1
    by (apply (play_accepted_run top_row_moves); reflexivity).
  assert (makeMove 2 "s1" top_row_open = Normal (true, top_row_won)) as H2
    by reflexivity.
  assert (accepted_run top_row_won 0 top_row_won) as H3 by constructor.
  exact (conj H0 (conj H1 (conj H2 (conj H3
           (accepted_moves_alternate _ _ _ _ _ _ _ _ H0 H1 H2 H3))))).
Defined.

(** C1, counterexample.  The move that completes the top row for 'X' is
    accepted and leaves the turn with 'X': the turn does not pass to the
    other marker on every accepted move. *)
Lemma strict_alternation_fails : ¬ strict_alternation.
Proof.
  intros Hclaim.
  destruct (Hclaim started top_row_open top_row_won top_row_won
              4%nat 0%nat 2%Z "s1") as (_ & Hturn & _).
  - split; reflexivity.
  - apply (play_accepted_run top_row_moves). reflexivity.
  - reflexivity.
  - constructor.
  - discriminate Hturn.
Qed.

(** C2.  An accepted move writes the mover's marker, the marker on turn,
    into the cell, which was blank, and then: if a marker holds one of the
    eight lines, the winner is that marker and the game is off; otherwise,
    if all nine cells are taken, the result is a draw and the game is off;
    otherwise the turn passes to the other marker (from 'X' to 'O', from
    'O' to 'X') and the game stays on.  The two moves that end the game
    leave the turn where it was.  So a move that takes the ninth cell and
    completes a line is a win, not a draw. *)
Theorem makeMove_terminal_order
    (index : Z) (playerId : string) (g g' : TicTacToeGame) :
  game_inv g →
  makeMove index playerId g = Normal (true, g') →
  ∃ p, obj_get (players g) playerId = Some p
    ∧ symbol p = currentPlayer g
    ∧ (0 ≤ index < 9)%Z
    ∧ board_get (board g) index = Some Blank
    ∧ board g' = <[Z.to_nat index := Mark (symbol p)]> (board g)
    ∧ players g' = players g
    ∧ (∀ m, three_in_line (board g') m → winner g' = Won m ∧ winner g' ≠ Draw)
    ∧ ( ((∃ m, three_in_line (board g') m) ∧ winner g' = Won (symbol p)
         ∧ gameActive g' = false ∧ currentPlayer g' = currentPlayer g)
      ∨ ((¬ ∃ m, three_in_line (board g') m) ∧ filled (board g')
         ∧ winner g' = Draw ∧ gameActive g' = false
         ∧ currentPlayer g' = currentPlayer g)
      ∨ ((¬ ∃ m, three_in_line (board g') m) ∧ ¬ filled (board g')
         ∧ (currentPlayer g = X ∧ currentPlayer g' = O
            ∨ currentPlayer g = O ∧ currentPlayer g' = X)
         ∧ gameActive g' = true ∧ winner g' = winner g) ).
Proof.
  intros Hinv Hmove.
  pose proof (makeMove_inv _ _ _ _ _ Hinv Hmove) as [Hlen' _].
  apply makeMove_true in Hmove
    as (Hactive & Hblank & p & Hp & Hsym & Hboard & Hplayers & Hcases).
  pose proof (board_get_Some _ _ _ Hblank) as [Hin _].
  rewrite (inv_slots _ Hinv) in Hin.
  exists p. split; [done|]. split; [done|]. split; [lia|].
  split; [done|]. split.
  { rewrite Hboard. unfold board_set. by rewrite decide_True by lia. }
  split; [done|].
  assert (∀ m, three_in_line (board g') m → m = symbol p) as Hown.
  { intros m Hm. rewrite Hboard, Hsym in Hm. rewrite Hsym.
    by eapply lines_after_write. }
  destruct (checkWinner (board g')) eqn:Hwin.
  - destruct Hcases as (Hw & Hoff & Hturn).
    apply checkWinner_true in Hwin. split.
    + intros m Hm. apply Hown in Hm as ->. by rewrite Hw.
    + left. done.
  - apply checkWinner_false in Hwin. split.
    + intros m Hm. destruct Hwin. by exists m.
    + destruct (board_full (board g')) eqn:Hfull.
      * apply (board_full_true _ Hlen') in Hfull.
        destruct Hcases as (Hw & Hoff & Hturn). right; left. done.
      * apply (board_full_false _ Hlen') in Hfull.
        destruct Hcases as (Hw & Hon & Hturn). right; right.
        split; [done|]. split; [done|]. split; [|done].
        rewrite Hturn. destruct (currentPlayer g); simpl; [by left|by right].
Qed.

Lemma makeMove_terminal_order_witness :
  game_inv last_cell_open
  ∧ makeMove 8 "s1" last_cell_open = Normal (true, last_cell_won)
  ∧ ∃ p, obj_get (players last_cell_open) "s1" = Some p
    ∧ symbol p = currentPlayer last_cell_open
    ∧ (0 ≤ 8 < 9)%Z
    ∧ board_get (board last_cell_open) 8 = Some Blank
    ∧ board last_cell_won
      = <[Z.to_nat 8 := Mark (symbol p)]> (board last_cell_open)
    ∧ players last_cell_won = players last_cell_open
    ∧ (∀ m, three_in_line (board last_cell_won) m →
            winner last_cell_won = Won m ∧ winner last_cell_won ≠ Draw)
    ∧ ( ((∃ m, three_in_line (board last_cell_won) m)
         ∧ winner last_cell_won = Won (symbol p)
         ∧ gameActive last_cell_won = false
         ∧ currentPlayer last_cell_won = currentPlayer last_cell_open)
      ∨ ((¬ ∃ m, three_in_line (board last_cell_won) m)
         ∧ filled (board last_cell_won)
         ∧ winner last_cell_won = Draw ∧ gameActive last_cell_won = false
         ∧ currentPlayer last_cell_won = currentPlayer last_cell_open)
      ∨ ((¬ ∃ m, three_in_line (board last_cell_won) m)
         ∧ ¬ filled (board last_cell_won)
         ∧ (currentPlayer last_cell_open = X ∧ currentPlayer last_cell_won = O
            ∨ currentPlayer last_cell_open = O
              ∧ currentPlayer last_cell_won = X)
         ∧ gameActive last_cell_won = true
         ∧ winner last_cell_won = winner last_cell_open) ).
Proof.
  assert (game_inv last_cell_open) as H0
    by (apply game_inv_test_correct; reflexivity).
  assert (makeMove 8 "s1" last_cell_open = Normal (true, last_cell_won)) as H1
    by reflexivity.
  exact (conj H0 (conj H1 (makeMove_terminal_order _ _ _ _ H0 H1))).
Defined.

(** C3.  When the game is off, or the target slot does not read as blank,
    or the caller's marker is not the one on turn, [makeMove] returns
    [false] and the game is exactly what it was: board, turn, flag,
    winner and participants. *)
Theorem makeMove_rejects_unchanged
    (index : Z) (playerId : string) (g : TicTacToeGame) :
  gameActive g = false
  ∨ board_get (board g) index ≠ Some Blank
  ∨ (∃ p, obj_get (players g) playerId = Some p ∧ symbol p ≠ currentPlayer g) →
  makeMove index playerId g = Normal (false, g).
Proof.
  unfold makeMove. intros [Hoff|[Hcell|(p & Hp & Hturn)]].
  - rewrite Hoff. by rewrite orb_true_r.
  - destruct (board_get (board g) index) as [[|m]|]; done.
  - destruct (not_blank (board_get (board g) index) || negb (gameActive g));
      [done|].
    rewrite Hp. simpl. by rewrite bool_decide_eq_false_2.
Qed.

Lemma makeMove_rejects_unchanged_witness :
  (gameActive new_game = false
   ∨ board_get (board new_game) 4 ≠ Some Blank
   ∨ (∃ p, obj_get (players new_game) "s1" = Some p
           ∧ symbol p ≠ currentPlayer new_game))
  ∧ makeMove 4 "s1" new_game = Normal (false, new_game).
Proof.
  assert (gameActive new_game = false
          ∨ board_get (board new_game) 4 ≠ Some Blank
          ∨ (∃ p, obj_get (players new_game) "s1" = Some p
                  ∧ symbol p ≠ currentPlayer new_game)) as H
    by (left; reflexivity).
  exact (conj H (makeMove_rejects_unchanged 4 "s1" new_game H)).
Defined.

(** C8.  Whatever the game was, after [reset()] each of the nine cells is
    blank, 'X' is on turn, the game is on, there is no winner, and the
    participants are the ones it had. *)
Theorem reset_restores (g : TicTacToeGame) :
  length (board (reset g)) = 9%nat
  ∧ (∀ i, (0 ≤ i < 9)%Z → board_get (board (reset g)) i = Some Blank)
  ∧ currentPlayer (reset g) = X
  ∧ gameActive (reset g) = true
  ∧ winner (reset g) = Null
  ∧ players (reset g) = players g.
Proof.
  split; [done|]. split; [|done].
  intros i Hi. unfold board_get. rewrite decide_True by lia.
  simpl. unfold empty_board. apply lookup_replicate_2. lia.
Qed.

(** C10.  On a board of nine slots an index below 0 or above 8 reads
    [undefined], which is not [''], so [makeMove] returns [false] and the
    game, its nine-slot board included, is exactly what it was. *)
Theorem makeMove_out_of_range
    (index : Z) (playerId : string) (g : TicTacToeGame) :
  length (board g) = 9%nat →
  (index < 0 ∨ 8 < index)%Z →
  makeMove index playerId g = Normal (false, g).
Proof.
  intros Hlen Hout. unfold makeMove.
  rewrite board_get_outside by lia. done.
Qed.

Lemma makeMove_out_of_range_witness :
  length (board started) = 9%nat
  ∧ (9 < 0 ∨ 8 < 9)%Z
  ∧ makeMove 9 "s1" started = Normal (false, started).
Proof.
  assert (length (board started) = 9%nat) as H0 by reflexivity.
  assert (9 < 0 ∨ 8 < 9)%Z as H1 by (right; reflexivity).
  exact (conj H0 (conj H1 (makeMove_out_of_range 9 "s1" started H0 H1))).
Defined.

End GameProperties.

(** * Properties of the event handlers *)

Module ServerFacts.

Import Game GameFacts Server.

(** Unfolds the sequencing of completions. *)
Ltac unfold_bind :=
  unfold mbind, completion_bind, mret, completion_ret in *.

(** ** What each handler does to the two maps *)

Lemma on_createRoom_Normal (socket playerName random36 : string)
    (st st' : state) (out : list emission) :
  on_createRoom socket playerName random36 st = Normal (st', out) →
  let code := RoomCode.generateRoomCode random36 in
  rooms st'
  = <[code := {| game := set_player socket
                           {| name := playerName; symbol := X;
                              isHost := true |} new_game;
                 room_players := [socket] |}]> (rooms st)
  ∧ players st'
    = <[socket := {| roomCode := code; playerName := playerName |}]>
        (players st).
Proof. unfold on_createRoom. intros H. by simplify_eq. Qed.

(** [joinRoom] either refuses and changes nothing, or enters the socket
    into a room that had fewer than two members and switches the game
    on. *)
Lemma on_joinRoom_Normal (socket code playerName : string)
    (st st' : state) (out : list emission) :
  on_joinRoom socket code playerName st = Normal (st', out) →
  st' = st
  ∨ ∃ room, rooms st !! code = Some room
      ∧ (length (room_players room) < 2)%nat
      ∧ rooms st'
        = <[code := {| game := set_gameActive true
                                 (set_player socket
                                    {| name := playerName; symbol := O;
                                       isHost := false |} (game room));
                       room_players := room_players room ++ [socket] |}]>
            (rooms st)
      ∧ players st'
        = <[socket := {| roomCode := code; playerName := playerName |}]>
            (players st).
Proof.
  unfold on_joinRoom. intros H.
  destruct (rooms st !! code) as [room|] eqn:Hroom; [|left; by simplify_eq].
  destruct (2 <=? length (room_players room))%nat eqn:Hfull;
    [left; by simplify_eq|].
  apply Nat.leb_gt in Hfull. right. exists room.
  unfold_bind. repeat case_match; simplify_eq. done.
Qed.

(** [makeMove] changes at most the game of the sender's room, by a call
    of the engine's [makeMove]. *)
Lemma on_makeMove_Normal (socket : string) (index : Z)
    (st st' : state) (out : list emission) :
  on_makeMove socket index st = Normal (st', out) →
  st' = st
  ∨ ∃ data room ok g,
      players st !! socket = Some data
      ∧ rooms st !! roomCode data = Some room
      ∧ Game.makeMove index socket (game room) = Normal (ok, g)
      ∧ rooms st' = <[roomCode data := {| game := g;
                                          room_players := room_players room |}]>
                      (rooms st)
      ∧ players st' = players st.
Proof.
  unfold on_makeMove. intros H.
  destruct (players st !! socket) as [data|] eqn:Hdata;
    [|left; by simplify_eq].
  destruct (rooms st !! roomCode data) as [room|] eqn:Hroom;
    [|left; by simplify_eq].
  right. exists data, room.
  destruct (Game.makeMove index socket (game room)) as [[ok g]|] eqn:Hmove;
    [|done].
  exists ok, g. unfold_bind.
  repeat case_match; simplify_eq; done.
Qed.

Lemma on_resetGame_Normal (socket : string)
    (st st' : state) (out : list emission) :
  on_resetGame socket st = Normal (st', out) →
  st' = st
  ∨ ∃ data room,
      players st !! socket = Some data
      ∧ rooms st !! roomCode data = Some room
      ∧ rooms st' = <[roomCode data := {| game := reset (game room);
                                          room_players := room_players room |}]>
                      (rooms st)
      ∧ players st' = players st.
Proof.
  unfold on_resetGame. intros H.
  destruct (players st !! socket) as [data|] eqn:Hdata;
    [|left; by simplify_eq].
  destruct (rooms st !! roomCode data) as [room|] eqn:Hroom;
    [|left; by simplify_eq].
  right. exists data, room. by simplify_eq.
Qed.

Lemma on_disconnect_Normal (socket : string)
    (st st' : state) (out : list emission) :
  on_disconnect socket st = Normal (st', out) →
  st' = st
  ∨ ∃ data, players st !! socket = Some data
      ∧ players st' = delete socket (players st)
      ∧ match rooms st !! roomCode data with
        | Some room =>
            let members := filter (λ id, id ≠ socket) (room_players room) in
            rooms st'
            = if (length members =? 0)%nat
              then delete (roomCode data) (rooms st)
              else <[roomCode data :=
                       {| game := set_gameActive false (game room);
                          room_players := members |}]> (rooms st)
        | None => rooms st' = rooms st
        end.
Proof.
  unfold on_disconnect. intros H.
  destruct (players st !! socket) as [data|] eqn:Hdata;
    [|left; by simplify_eq].
  right. exists data. split; [done|].
  destruct (rooms st !! roomCode data) as [room|] eqn:Hroom; by simplify_eq.
Qed.

(** ** The invariant of all reachable states *)

Lemma init_sound : sound init.
Proof. split; intros code room H; simpl in H; by rewrite lookup_empty in H. Qed.

Lemma handle_sound (e : event) (st st' : state) (out : list emission) :
  sound st → handle e st = Normal (st', out) → sound st'.
Proof.
  intros [Hmem Hgames] H. destruct e as [s n r|s c n|s i|s|s]; simpl in H.
  - apply on_createRoom_Normal in H as [Hrooms _].
    split; intros code room; rewrite Hrooms, lookup_insert;
      case_decide; intros Hroom; simplify_eq; simpl; eauto.
    apply set_player_inv, new_game_inv.
  - apply on_joinRoom_Normal in H as [->|(room0 & Hroom0 & Hlt & Hrooms & _)];
      [by split|].
    pose proof (Hmem _ _ Hroom0) as Hbounds.
    split; intros code room; rewrite Hrooms, lookup_insert;
      case_decide; intros Hroom; simplify_eq; simpl; eauto.
    + rewrite length_app. simpl. lia.
    + by eapply set_gameActive_inv, set_player_inv, Hgames.
  - apply on_makeMove_Normal in H
      as [->|(data & room0 & ok & g & _ & Hroom0 & Hmove & Hrooms & _)];
      [by split|].
    split; intros code room; rewrite Hrooms, lookup_insert;
      case_decide; intros Hroom; simplify_eq; simpl; eauto.
    eapply makeMove_inv; [|done]. by eapply Hgames.
  - apply on_resetGame_Normal in H
      as [->|(data & room0 & _ & Hroom0 & Hrooms & _)]; [by split|].
    split; intros code room; rewrite Hrooms, lookup_insert;
      case_decide; intros Hroom; simplify_eq; simpl; eauto.
    apply reset_inv.
  - apply on_disconnect_Normal in H as [->|(data & _ & _ & Hrooms)];
      [by split|].
    destruct (rooms st !! roomCode data) as [room0|] eqn:Hroom0;
      [|split; intros code room; rewrite Hrooms; eauto].
    simpl in Hrooms. pose proof (Hmem _ _ Hroom0) as Hbounds.
    pose proof (length_filter (λ id, id ≠ s) (room_players room0)) as Hle.
    destruct (length (filter (λ id, id ≠ s) (room_players room0)) =? 0)%nat
      eqn:Hempty.
    + split; intros code room; rewrite Hrooms, lookup_delete;
        case_decide; intros Hroom; simplify_eq; eauto.
    + apply Nat.eqb_neq in Hempty.
      split; intros code room; rewrite Hrooms, lookup_insert;
        case_decide; intros Hroom; simplify_eq; simpl; eauto.
      * lia.
      * by eapply set_gameActive_inv, Hgames.
Qed.

Lemma run_sound (es : list event) (st st' : state) :
  sound st → run es st = Normal st' → sound st'.
Proof.
  revert st. induction es as [|e es IH]; intros st Hst H; simpl in H.
  - by simplify_eq.
  - unfold_bind.
    destruct (handle e st) as [[st1 out]|] eqn:He; [|done].
    eapply IH; [|done]. by eapply handle_sound.
Qed.

(** Every room of a reachable state has one or two members and a game
    that satisfies [game_inv]. *)
Lemma reachable_sound (st : state) : reachable st → sound st.
Proof. intros [es Hes]. eapply run_sound; [apply init_sound|done]. Qed.

(** ** The invariant of regular runs *)

Lemma filter_member_shorter (socket : string) (l : list string) :
  socket ∈ l →
  (length (filter (λ id, id ≠ socket) l) < length l)%nat.
Proof.
  induction l as [|x l IH]; intros Hin; [by apply elem_of_nil in Hin|].
  pose proof (length_filter (λ id, id ≠ socket) l) as Hle.
  rewrite filter_cons. case_decide as Hx; simpl.
  - apply elem_of_cons in Hin as [->|Hin]; [done|].
    specialize (IH Hin). lia.
  - lia.
Qed.

Lemma init_coherent : coherent init.
Proof.
  split.
  - intros socket data H. simpl in H. by rewrite lookup_empty in H.
  - intros code room H. simpl in H. by rewrite lookup_empty in H.
Qed.

(** The flag of a game after a call of [makeMove] in a room whose flag
    was as described. *)
Lemma makeMove_flag (index : Z) (socket : string) (ok : bool)
    (room : room) (g : TicTacToeGame) :
  flag_as_described room →
  Game.makeMove index socket (game room) = Normal (ok, g) →
  flag_as_described {| game := g; room_players := room_players room |}.
Proof.
  unfold flag_as_described. intros Hflag Hmove. destruct ok.
  - apply makeMove_true in Hmove as (Hon & _ & p & _ & _ & _ & _ & Hcases).
    simpl.
    assert (winner (game room) = Null
            ∧ length (room_players room) ≠ 1%nat) as [Hnull Hlen].
    { destruct (decide (winner (game room) = Null)) as [?|Hw].
      - split; [done|]. intros Hone.
        destruct Hflag as [_ Hflag]. rewrite Hflag in Hon by eauto. done.
      - destruct Hflag as [_ Hflag]. rewrite Hflag in Hon by eauto. done. }
    destruct (checkWinner (board g)); [|destruct (board_full (board g))].
    + destruct Hcases as (-> & -> & _). split; [by left|done].
    + destruct Hcases as (-> & -> & _). split; [by left|done].
    + destruct Hcases as (-> & -> & _). rewrite Hnull.
      split; [done|]. by intros [?|?].
  - apply makeMove_false in Hmove as ->. by destruct room.
Qed.

Lemma handle_coherent (e : event) (st st' : state) (out : list emission) :
  sound st → coherent st → regular e st = true →
  handle e st = Normal (st', out) → coherent st'.
Proof.
  intros [Hmem _] [Hbound Hflag] Hreg H.
  destruct e as [s n r|s c n|s i|s|s]; simpl in H; cbn [regular] in Hreg.
  - (* createRoom with a code that names no room *)
    apply bool_decide_eq_true in Hreg.
    apply on_createRoom_Normal in H as [Hrooms Hplayers]. simpl in *.
    split.
    + intros socket data. rewrite Hplayers, Hrooms, lookup_insert.
      case_decide; intros Hdata; simplify_eq; simpl.
      * rewrite lookup_insert_eq. eexists. split; [done|]. by apply list_elem_of_singleton.
      * destruct (Hbound _ _ Hdata) as (room & Hroom & Hin).
        rewrite lookup_insert_ne by congruence. eauto.
    + intros code room. rewrite Hrooms, lookup_insert.
      case_decide; intros Hroom; simplify_eq; [|eauto].
      unfold flag_as_described. simpl. split; [by right|done].
  - (* joinRoom *)
    apply on_joinRoom_Normal in H
      as [->|(room0 & Hroom0 & Hlt & Hrooms & Hplayers)]; [by split|].
    rewrite Hroom0 in Hreg.
    rewrite (proj2 (Nat.leb_gt _ _) Hlt) in Hreg. simpl in Hreg.
    apply bool_decide_eq_true in Hreg.
    pose proof (Hmem _ _ Hroom0) as Hbounds.
    split.
    + intros socket data. rewrite Hplayers, Hrooms, lookup_insert.
      case_decide; intros Hdata; simplify_eq; simpl.
      * rewrite lookup_insert_eq. eexists. split; [done|]. apply elem_of_app. right. by apply list_elem_of_singleton.
      * destruct (Hbound _ _ Hdata) as (room & Hroom & Hin).
        rewrite lookup_insert. case_decide; simplify_eq; [|eauto].
        eexists. split; [done|]. simpl. apply elem_of_app. by left.
    + intros code room. rewrite Hrooms, lookup_insert.
      case_decide; intros Hroom; simplify_eq; [|eauto].
      unfold flag_as_described. simpl. rewrite Hreg, length_app. simpl.
      split; [done|]. intros [?|?]; [done|lia].
  - (* makeMove *)
    apply on_makeMove_Normal in H
      as [->|(data & room0 & ok & g & _ & Hroom0 & Hmove & Hrooms & Hplayers)];
      [by split|].
    split.
    + intros socket data'. rewrite Hplayers, Hrooms. intros Hdata.
      destruct (Hbound _ _ Hdata) as (room & Hroom & Hin).
      rewrite lookup_insert. case_decide as Hcode; [|eauto].
      rewrite <- Hcode in Hroom. simplify_eq. eauto.
    + intros code room. rewrite Hrooms, lookup_insert.
      case_decide; intros Hroom; simplify_eq; [|eauto].
      eapply makeMove_flag; eauto.
  - (* resetGame from a room that does not have a single member *)
    apply on_resetGame_Normal in H
      as [->|(data & room0 & Hdata0 & Hroom0 & Hrooms & Hplayers)];
      [by split|].
    rewrite Hdata0, Hroom0 in Hreg.
    apply negb_true_iff, Nat.eqb_neq in Hreg.
    split.
    + intros socket data'. rewrite Hplayers, Hrooms. intros Hdata.
      destruct (Hbound _ _ Hdata) as (room & Hroom & Hin).
      rewrite lookup_insert. case_decide as Hcode; [|eauto].
      rewrite <- Hcode in Hroom. simplify_eq. eauto.
    + intros code room. rewrite Hrooms, lookup_insert.
      case_decide; intros Hroom; simplify_eq; [|eauto].
      unfold flag_as_described. simpl. split; [done|]. by intros [?|?].
  - (* disconnect *)
    apply on_disconnect_Normal in H as [->|(data & Hdata0 & Hplayers & Hrooms)];
      [by split|].
    destruct (Hbound _ _ Hdata0) as (room0 & Hroom0 & Hin0).
    rewrite Hroom0 in Hrooms. simpl in Hrooms.
    pose proof (Hmem _ _ Hroom0) as Hbounds.
    pose proof (filter_member_shorter _ _ Hin0) as Hshorter.
    assert (∀ t, t ≠ s → t ∈ room_players room0 →
                 t ∈ filter (λ id, id ≠ s) (room_players room0)) as Hstay.
    { intros t Hne Ht. by apply list_elem_of_filter. }
    destruct (length (filter (λ id, id ≠ s) (room_players room0)) =? 0)%nat
      eqn:Hempty.
    + apply Nat.eqb_eq, nil_length_inv in Hempty.
      split.
      * intros socket data'. rewrite Hplayers, Hrooms, lookup_delete.
        case_decide; intros Hdata; [done|].
        destruct (Hbound _ _ Hdata) as (room & Hroom & Hin).
        rewrite lookup_delete. case_decide as Hcode; [|eauto].
        rewrite <- Hcode in Hroom. simplify_eq.
        apply Hstay in Hin; [|done]. rewrite Hempty in Hin.
        by apply elem_of_nil in Hin.
      * intros code room. rewrite Hrooms, lookup_delete.
        case_decide; intros Hroom; simplify_eq; eauto.
    + apply Nat.eqb_neq in Hempty.
      split.
      * intros socket data'. rewrite Hplayers, Hrooms, lookup_delete.
        case_decide; intros Hdata; [done|].
        destruct (Hbound _ _ Hdata) as (room & Hroom & Hin).
        rewrite lookup_insert. case_decide as Hcode; [|eauto].
        rewrite <- Hcode in Hroom. simplify_eq.
        eexists. split; [done|]. simpl. by apply Hstay.
      * intros code room. rewrite Hrooms, lookup_insert.
        case_decide; intros Hroom; simplify_eq; [|eauto].
        unfold flag_as_described. simpl. split; [|done].
        intros _. right. lia.
Qed.

Lemma run_coherent (es : list event) (st st' : state) :
  sound st → coherent st → regular_run es st = true →
  run es st = Normal st' → coherent st'.
Proof.
  revert st. induction es as [|e es IH]; intros st Hsound Hst Hreg H;
    simpl in H, Hreg.
  - by simplify_eq.
  - unfold_bind. apply andb_prop in Hreg as [He Hes].
    destruct (handle e st) as [[st1 out]|] eqn:Hstep; [|done].
    eapply (IH st1); [| |done|done].
    + by eapply handle_sound.
    + by eapply handle_coherent.
Qed.

(** ** The handlers complete along regular runs *)

Lemma init_members_known : members_known init.
Proof. intros code room id H. simpl in H. by rewrite lookup_empty in H. Qed.

Lemma handle_members_known (e : event) (st st' : state) (out : list emission) :
  members_known st → handle e st = Normal (st', out) → members_known st'.
Proof.
  unfold members_known. intros Hknown H.
  destruct e as [s n r|s c n|s i|s|s]; simpl in H.
  - apply on_createRoom_Normal in H as [Hrooms _].
    intros code room id. rewrite Hrooms, lookup_insert.
    case_decide; intros Hroom; simplify_eq; simpl; [|eauto].
    intros ->%list_elem_of_singleton. rewrite decide_True by done. eauto.
  - apply on_joinRoom_Normal in H as [->|(room0 & Hroom0 & _ & Hrooms & _)];
      [done|].
    intros code room id. rewrite Hrooms, lookup_insert.
    case_decide; intros Hroom; simplify_eq; simpl; [|eauto].
    intros Hin. destruct (decide (s = id)) as [->|Hne].
    + rewrite obj_get_set_eq. eauto.
    + rewrite obj_get_set_ne by done.
      apply elem_of_app in Hin as [Hin|Hin]; [eauto|].
      apply list_elem_of_singleton in Hin. congruence.
  - apply on_makeMove_Normal in H
      as [->|(data & room0 & ok & g & _ & Hroom0 & Hmove & Hrooms & _)];
      [done|].
    intros code room id. rewrite Hrooms, lookup_insert.
    case_decide; intros Hroom; simplify_eq; simpl; [|eauto].
    rewrite (makeMove_players _ _ _ _ _ Hmove). eauto.
  - apply on_resetGame_Normal in H
      as [->|(data & room0 & _ & Hroom0 & Hrooms & _)]; [done|].
    intros code room id. rewrite Hrooms, lookup_insert.
    case_decide; intros Hroom; simplify_eq; simpl; eauto.
  - apply on_disconnect_Normal in H as [->|(data & _ & _ & Hrooms)]; [done|].
    destruct (rooms st !! roomCode data) as [room0|] eqn:Hroom0;
      [|rewrite Hrooms; eauto].
    simpl in Hrooms.
    destruct (length (filter (λ id, id ≠ s) (room_players room0)) =? 0)%nat.
    + intros code room id. rewrite Hrooms, lookup_delete.
      case_decide; intros Hroom; simplify_eq; eauto.
    + intros code room id. rewrite Hrooms, lookup_insert.
      case_decide; intros Hroom; simplify_eq; simpl; [|eauto].
      intros [_ Hin]%list_elem_of_filter. eauto.
Qed.

Lemma reachable_members_known (st : state) : reachable st → members_known st.
Proof.
  intros [es Hes]. revert Hes. generalize init_members_known.
  generalize init. induction es as [|e es IH]; intros st0 Hst0 H; simpl in H.
  - by simplify_eq.
  - unfold_bind. destruct (handle e st0) as [[st1 out]|] eqn:He; [|done].
    eapply IH; [|done]. by eapply handle_members_known.
Qed.

(** After a call of the engine that returned [true] and ended the game
    with a winner, the search for the winner's name finds an entry. *)
Lemma winner_name_found (index : Z) (socket : string) (g g' : TicTacToeGame) :
  Game.makeMove index socket g = Normal (true, g') →
  gameActive g' = false → winner g' ≠ Draw →
  ∃ n, winner_name g' = Normal n.
Proof.
  intros Hmove Hoff Hnodraw.
  apply makeMove_true in Hmove as (_ & _ & p & Hp & _ & _ & Hplayers & Hcases).
  assert (winner g' = Won (symbol p)) as Hwon.
  { destruct (checkWinner (board g')); [by destruct Hcases as [? _]|].
    destruct (board_full (board g')); [by destruct Hcases as [? _]|].
    destruct Hcases as (_ & ? & _). congruence. }
  unfold winner_name. rewrite <- Hplayers in Hp.
  destruct (find _ (Game.players g').*1) as [winnerId|] eqn:Hfind.
  - apply find_some in Hfind as [_ Htest].
    unfold obj_read. unfold_bind.
    destruct (obj_get (Game.players g') winnerId) as [q|]; [|done].
    by exists (name q).
  - eapply find_none in Hfind; [|by eapply list_elem_of_In, obj_get_key].
    simpl in Hfind. rewrite Hp, Hwon in Hfind.
    by rewrite bool_decide_eq_true_2 in Hfind.
Qed.

(** No handler raises in a state that satisfies the invariants. *)
Lemma handle_completes (e : event) (st : state) :
  sound st → members_known st → coherent st →
  ∃ st' out, handle e st = Normal (st', out).
Proof.
  intros [Hmem _] Hknown [Hbound _].
  destruct e as [s n r|s c n|s i|s|s]; simpl.
  - unfold on_createRoom. eauto.
  - unfold on_joinRoom.
    destruct (rooms st !! c) as [room|] eqn:Hroom; [|eauto].
    destruct (2 <=? length (room_players room))%nat; [eauto|].
    pose proof (Hmem _ _ Hroom) as Hbounds.
    destruct (room_players room) as [|id0 rest] eqn:Hmembers;
      [simpl in Hbounds; lia|].
    simpl. unfold obj_read. simpl.
    assert (is_Some (obj_get (obj_set (Game.players (game room)) s
                       {| name := n; symbol := O; isHost := false |}) id0))
      as [q ->]; [|unfold_bind; eauto].
    destruct (decide (s = id0)) as [->|Hne].
    + rewrite obj_get_set_eq. eauto.
    + rewrite obj_get_set_ne by done.
      eapply Hknown; [done|]. rewrite Hmembers. apply elem_of_cons. by left.
  - unfold on_makeMove.
    destruct (players st !! s) as [data|] eqn:Hdata; [|eauto].
    destruct (Hbound _ _ Hdata) as (room & Hroom & Hin). rewrite Hroom.
    destruct (Hknown _ _ _ Hroom Hin) as [p Hp].
    destruct (makeMove_participant i s _ _ Hp) as (ok & g & Hmove).
    rewrite Hmove. unfold_bind. destruct ok; [|eauto].
    unfold obj_read. rewrite (makeMove_players _ _ _ _ _ Hmove), Hp.
    destruct (gameActive g) eqn:Hactive; simpl; [eauto|].
    case_bool_decide as Hdraw; [eauto|].
    destruct (winner_name_found _ _ _ _ Hmove Hactive Hdraw) as [w ->]. eauto.
  - unfold on_resetGame. repeat case_match; eauto.
  - unfold on_disconnect. repeat case_match; eauto.
Qed.

(** A regular run goes through: no handler raises. *)
Lemma regular_run_completes (es : list event) :
  regular_run es init = true → ∃ st, run es init = Normal st.
Proof.
  generalize init_sound init_members_known init_coherent. generalize init.
  induction es as [|e es IH]; intros st Hsound Hknown Hcoh Hreg;
    simpl in *; [eauto|].
  apply andb_prop in Hreg as [He Hes].
  destruct (handle_completes e st Hsound Hknown Hcoh) as (st1 & out & Hstep).
  rewrite Hstep in Hes |- *. unfold_bind. apply IH; [| | |done].
  - by eapply handle_sound.
  - by eapply handle_members_known.
  - by eapply handle_coherent.
Qed.

(** ** The member lists along orderly runs *)

Lemma in_room_insert (st st' : state) (s : string) (d : playerData)
    (code t : string) :
  players st' = <[s := d]> (players st) →
  in_room st' code t ↔
  (t = s ∧ roomCode d = code) ∨ (t ≠ s ∧ in_room st code t).
Proof.
  intros Hplayers. unfold in_room. rewrite Hplayers. split.
  - intros (data & Hdata & Hcode). rewrite lookup_insert in Hdata.
    case_decide; simplify_eq; [by left|]. right. eauto.
  - intros [[-> <-]|[Hne (data & Hdata & Hcode)]].
    + exists d. by rewrite lookup_insert_eq.
    + exists data. by rewrite lookup_insert_ne.
Qed.

Lemma in_room_delete (st st' : state) (s code t : string) :
  players st' = delete s (players st) →
  in_room st' code t ↔ t ≠ s ∧ in_room st code t.
Proof.
  intros Hplayers. unfold in_room. rewrite Hplayers. split.
  - intros (data & Hdata & Hcode). rewrite lookup_delete in Hdata.
    case_decide; simplify_eq. eauto.
  - intros [Hne (data & Hdata & Hcode)].
    exists data. by rewrite lookup_delete_ne.
Qed.

Lemma in_room_same (st st' : state) (code t : string) :
  players st' = players st → in_room st' code t ↔ in_room st code t.
Proof. intros Hplayers. unfold in_room. by rewrite Hplayers. Qed.

(** A connection is in the room of one code only. *)
Lemma in_room_one_code (st : state) (code code' t : string) :
  in_room st code t → in_room st code' t → code = code'.
Proof. intros (d & Hd & <-) (d' & Hd' & <-). congruence. Qed.

Lemma init_members_exact : members_exact init.
Proof. intros code room H. simpl in H. by rewrite lookup_empty in H. Qed.

Lemma handle_members_exact (e : event) (st st' : state) (out : list emission) :
  coherent st → members_exact st → orderly e st = true →
  handle e st = Normal (st', out) → members_exact st'.
Proof.
  unfold members_exact. intros [Hbound _] Hexact Horderly H.
  apply andb_prop in Horderly as [Hreg Hfree].
  assert (∀ code t, in_room st code t → is_Some (rooms st !! code)) as Hlive.
  { intros code t (data & Hdata & <-).
    destruct (Hbound _ _ Hdata) as (room & -> & _). eauto. }
  destruct e as [s n r|s c n|s i|s|s]; simpl in H;
    cbn [regular unbound_sender] in Hreg, Hfree.
  - apply bool_decide_eq_true in Hreg, Hfree.
    apply on_createRoom_Normal in H as [Hrooms Hplayers]. simpl in *.
    assert (∀ code, ¬ in_room st code s) as Hnew.
    { intros code (data & Hdata & _). congruence. }
    intros code room. rewrite Hrooms, lookup_insert.
    case_decide as Hcode; intros Hroom; simplify_eq; simpl.
    + split; [apply NoDup_singleton|]. intros t.
      rewrite (in_room_insert _ _ _ _ _ _ Hplayers), list_elem_of_singleton.
      simpl. split; [by left|]. intros [[? _]|[_ Hin]]; [done|].
      apply Hlive in Hin as [? Hin]. congruence.
    + destruct (Hexact _ _ Hroom) as [Hnodup Hmem]. split; [done|].
      intros t. rewrite (in_room_insert _ _ _ _ _ _ Hplayers), Hmem.
      simpl. split.
      * intros Hin. right. split; [|done]. intros ->. by eapply Hnew.
      * intros [[_ ?]|[_ ?]]; [done|done].
  - apply on_joinRoom_Normal in H
      as [->|(room0 & Hroom0 & _ & Hrooms & Hplayers)]; [done|].
    apply bool_decide_eq_true in Hfree.
    assert (∀ code, ¬ in_room st code s) as Hnew.
    { intros code (data & Hdata & _). congruence. }
    destruct (Hexact _ _ Hroom0) as [Hnodup0 Hmem0].
    intros code room. rewrite Hrooms, lookup_insert.
    case_decide as Hcode; intros Hroom; simplify_eq; simpl.
    + split.
      * apply NoDup_app. split; [done|]. split; [|apply NoDup_singleton].
        intros t Ht ->%list_elem_of_singleton.
        apply Hmem0 in Ht. by eapply Hnew.
      * intros t.
        rewrite (in_room_insert _ _ _ _ _ _ Hplayers), elem_of_app,
          list_elem_of_singleton, Hmem0. simpl. split.
        -- intros [Hin| ->]; [|by left]. right. split; [|done].
           intros ->. by eapply Hnew.
        -- intros [[-> _]|[_ ?]]; [by right|by left].
    + destruct (Hexact _ _ Hroom) as [Hnodup Hmem]. split; [done|].
      intros t. rewrite (in_room_insert _ _ _ _ _ _ Hplayers), Hmem.
      simpl. split.
      * intros Hin. right. split; [|done]. intros ->. by eapply Hnew.
      * intros [[_ ?]|[_ ?]]; [done|done].
  - apply on_makeMove_Normal in H
      as [->|(data & room0 & ok & g & _ & Hroom0 & _ & Hrooms & Hplayers)];
      [done|].
    intros code room. rewrite Hrooms, lookup_insert.
    case_decide as Hcode; intros Hroom; simplify_eq; simpl.
    + destruct (Hexact _ _ Hroom0) as [Hnodup Hmem]. split; [done|].
      intros t. by rewrite (in_room_same _ _ _ _ Hplayers).
    + destruct (Hexact _ _ Hroom) as [Hnodup Hmem]. split; [done|].
      intros t. by rewrite (in_room_same _ _ _ _ Hplayers).
  - apply on_resetGame_Normal in H
      as [->|(data & room0 & _ & Hroom0 & Hrooms & Hplayers)]; [done|].
    intros code room. rewrite Hrooms, lookup_insert.
    case_decide as Hcode; intros Hroom; simplify_eq; simpl.
    + destruct (Hexact _ _ Hroom0) as [Hnodup Hmem]. split; [done|].
      intros t. by rewrite (in_room_same _ _ _ _ Hplayers).
    + destruct (Hexact _ _ Hroom) as [Hnodup Hmem]. split; [done|].
      intros t. by rewrite (in_room_same _ _ _ _ Hplayers).
  - apply on_disconnect_Normal in H
      as [->|(data0 & Hdata0 & Hplayers & Hrooms)]; [done|].
    destruct (Hbound _ _ Hdata0) as (room0 & Hroom0 & Hin0).
    rewrite Hroom0 in Hrooms. simpl in Hrooms.
    assert (in_room st (roomCode data0) s) as Hs by (by exists data0).
    assert (∀ code room, code ≠ roomCode data0 →
              rooms st !! code = Some room →
              NoDup (room_players room)
              ∧ ∀ t, t ∈ room_players room ↔ in_room st' code t) as Hother.
    { intros code room Hne Hroom.
      destruct (Hexact _ _ Hroom) as [Hnodup Hmem]. split; [done|].
      intros t. rewrite (in_room_delete _ _ _ _ _ Hplayers), Hmem.
      split; [|by intros [_ ?]].
      intros Hin. split; [|done]. intros ->.
      by pose proof (in_room_one_code _ _ _ _ Hin Hs). }
    intros code room. rewrite Hrooms.
    destruct (length (filter (λ id, id ≠ s) (room_players room0)) =? 0)%nat.
    + rewrite lookup_delete. case_decide as Hcode; [done|]. eauto.
    + rewrite lookup_insert.
      case_decide as Hcode; intros Hroom; simplify_eq; simpl; [|eauto].
      destruct (Hexact _ _ Hroom0) as [Hnodup Hmem]. split.
      * by apply NoDup_filter.
      * intros t.
        rewrite (in_room_delete _ _ _ _ _ Hplayers), list_elem_of_filter, Hmem.
        done.
Qed.

Lemma orderly_run_regular (es : list event) (st : state) :
  orderly_run es st = true → regular_run es st = true.
Proof.
  revert st. induction es as [|e es IH]; intros st H; simpl in *; [done|].
  apply andb_prop in H as [He Hes].
  apply andb_prop in He as [-> _]. simpl.
  destruct (handle e st) as [[st1 out]|]; [by apply IH|done].
Qed.

Lemma run_members_exact (es : list event) (st st' : state) :
  sound st → coherent st → members_exact st → orderly_run es st = true →
  run es st = Normal st' → members_exact st'.
Proof.
  revert st.
  induction es as [|e es IH]; intros st Hsound Hcoh Hexact Horderly H;
    simpl in H, Horderly.
  - by simplify_eq.
  - unfold_bind. apply andb_prop in Horderly as [He Hes].
    destruct (handle e st) as [[st1 out]|] eqn:Hstep; [|done].
    pose proof He as Hreg. apply andb_prop in Hreg as [Hreg _].
    eapply (IH st1); [| | |done|done].
    + by eapply handle_sound.
    + by eapply handle_coherent.
    + by eapply handle_members_exact.
Qed.

(** A list without repetition whose only element is [s]. *)
Lemma NoDup_only (s : string) (l : list string) :
  NoDup l → (∀ t, t ∈ l ↔ t = s) → l = [s].
Proof.
  intros Hnodup Honly.
  destruct l as [|x l].
  - assert (s ∈ @nil string) as Hin by (by apply Honly).
    by apply elem_of_nil in Hin.
  - assert (x = s) as -> by (apply Honly, elem_of_cons; by left).
    destruct l as [|y l]; [done|].
    apply NoDup_cons in Hnodup as [Hout _].
    assert (y = s) as ->.
    { apply Honly, elem_of_cons. right. apply elem_of_cons. by left. }
    destruct Hout. apply elem_of_cons. by left.
Qed.

End ServerFacts.

(** * The room-code property of the design document *)

Module RoomCodeProperties.

Import RoomCode RoomCodeFacts.

(** C9, at the draws 1/2 and 0.  [Math.random()] may return 0.5, whose
    numeral in radix 36 is [0.i]: the code is the one character [I].  It
    may return 0, whose numeral is [0]: the code is the empty string.
    Neither has six characters. *)
Theorem generateRoomCode_short_draws :
  toString36 1 1 = "0.i"
  ∧ generateRoomCode (toString36 1 1) = "I"
  ∧ toString36 0 1 = "0"
  ∧ generateRoomCode (toString36 0 1) = ""
  ∧ ¬ well_formed_code (generateRoomCode (toString36 1 1))
  ∧ ¬ well_formed_code (generateRoomCode (toString36 0 1)).
Proof.
  repeat split; try reflexivity; intros [Hlen _]; discriminate Hlen.
Qed.

End RoomCodeProperties.

(** * The coordinator properties of the design document *)

Module ServerProperties.

Import Game GameFacts Server ServerFacts Scenario.

(** C4, at the failing input.  In a game that is on, a call of [makeMove]
    for an empty cell on behalf of an id that is not a key of
    [game.players] raises a [TypeError]: the call neither returns [true]
    nor [false].  The server reaches such a call when two [createRoom]
    requests draw the same code: the socket of the first room, still
    bound to the code, sends [makeMove] and the handler raises. *)
Theorem makeMove_raises_for_stranger :
  Game.makeMove 0 "s3" started = TypeError
  ∧ run (collision_events ++ [ MakeMove "s1" 0 ]) init = TypeError
  ∧ ¬ never_raises.
Proof.
  split; [reflexivity|]. split; [reflexivity|].
  intros Hclaim. destruct (Hclaim started 0%Z "s3") as (ok & g' & H & _).
  discriminate H.
Qed.

(** C5 (as the code has it).  Take a run of events in which (i) no
    [resetGame] comes from a socket whose room has a single member,
    (ii) no [joinRoom] enters a room whose game has ended, (iii) no
    [createRoom] draws the code of an existing room, and (iv) no
    [createRoom] or [joinRoom] comes from a connection that is in a room
    already.  In every room of the resulting state the member list names
    exactly the connections in the room, each once, so that the ways of
    counting the members of a room agree: the list has one entry, or one
    connection is in the room.  The game of the room is off exactly when
    it has ended or the room has one member; in particular the game of a
    one-member room is off. *)
Theorem flag_on_regular_runs
    (es : list event) (st : state) (code : string) (room : room) :
  orderly_run es init = true →
  run es init = Normal st →
  rooms st !! code = Some room →
  NoDup (room_players room)
  ∧ (∀ t, t ∈ room_players room ↔ in_room st code t)
  ∧ (one_member st code room ↔ length (room_players room) = 1%nat)
  ∧ (one_member st code room ↔ ∃ s, ∀ t, in_room st code t ↔ t = s)
  ∧ (gameActive (game room) = false ↔
     winner (game room) ≠ Null ∨ one_member st code room)
  ∧ (one_member st code room → gameActive (game room) = false).
Proof.
  intros Horderly Hrun Hroom.
  pose proof (orderly_run_regular _ _ Horderly) as Hreg.
  pose proof (run_coherent es init st init_sound init_coherent Hreg Hrun)
    as [_ Hflag].
  pose proof (run_members_exact es init st init_sound init_coherent
                init_members_exact Horderly Hrun) as Hexact.
  specialize (Hflag _ _ Hroom). unfold flag_as_described in Hflag.
  destruct (Hexact _ _ Hroom) as [Hnodup Hmem].
  assert (one_member st code room ↔ length (room_players room) = 1%nat)
    as Hlength.
  { split.
    - by intros (s & -> & _).
    - intros Hone. unfold one_member.
      destruct (room_players room) as [|s [|s' l] ]; simplify_eq/=.
      exists s. split; [done|]. intros t.
      by rewrite <- Hmem, list_elem_of_singleton. }
  split; [done|]. split; [done|]. split; [done|]. split.
  { split.
    - intros (s & _ & Honly). eauto.
    - intros (s & Honly). exists s. split; [|done].
      apply NoDup_only; [done|]. intros t. by rewrite Hmem. }
  rewrite Hlength. split; [done|].
  intros Hone. apply Hflag. by right.
Qed.

Lemma flag_on_regular_runs_witness :
  orderly_run departed_events init = true
  ∧ run departed_events init = Normal departed_state
  ∧ rooms departed_state !! Scenario.code = Some departed_room
  ∧ NoDup (room_players departed_room)
  ∧ (∀ t, t ∈ room_players departed_room
          ↔ in_room departed_state Scenario.code t)
  ∧ (one_member departed_state Scenario.code departed_room
     ↔ length (room_players departed_room) = 1%nat)
  ∧ (one_member departed_state Scenario.code departed_room
     ↔ ∃ s, ∀ t, in_room departed_state Scenario.code t ↔ t = s)
  ∧ (gameActive (game departed_room) = false ↔
     winner (game departed_room) ≠ Null
     ∨ one_member departed_state Scenario.code departed_room)
  ∧ (one_member departed_state Scenario.code departed_room →
     gameActive (game departed_room) = false).
Proof.
  assert (orderly_run departed_events init = true) as H0 by reflexivity.
  assert (run departed_events init = Normal departed_state) as H1
    by reflexivity.
  assert (rooms departed_state !! Scenario.code = Some departed_room) as H2
    by reflexivity.
  exact (conj H0 (conj H1 (conj H2
           (flag_on_regular_runs departed_events departed_state
              Scenario.code departed_room H0 H1 H2)))).
Defined.

(** C5, counterexample.  A socket creates a room and sends [resetGame]:
    the member list of the room is the socket alone, the socket is the
    one connection in the room, and the game is on. *)
Lemma flag_as_stated_fails : ¬ flag_as_stated.
Proof.
  intros Hclaim.
  assert (reachable lone_reset_state) as Hreach
    by (exists lone_reset_events; reflexivity).
  assert (rooms lone_reset_state !! Scenario.code = Some lone_reset_room)
    as Hroom by reflexivity.
  destruct (Hclaim _ Hreach _ _ Hroom) as [Hoff _].
  assert (one_member lone_reset_state Scenario.code lone_reset_room)
    as Hone.
  { exists "s1". split; [reflexivity|]. intros t. unfold in_room.
    unfold lone_reset_state. cbn [players]. split.
    - intros (data & Hdata & _).
      by apply lookup_singleton_Some in Hdata as [<- _].
    - intros ->. eexists. split; [reflexivity|reflexivity]. }
  discriminate (Hoff Hone).
Qed.

(** Condition (iv) is needed.  When a socket joins the room it has
    created, or a member of a room creates another room and leaves, the
    run is regular and ends with one connection in a room whose game is
    on and has not ended. *)
Lemma only_connection (st : state) (t : string) :
  players st = {[ "s1" := {| roomCode := Scenario.code;
                             playerName := "Alice" |} ]} →
  in_room st Scenario.code t ↔ t = "s1".
Proof.
  intros Hplayers. unfold in_room. rewrite Hplayers. split.
  - intros (data & Hdata & _).
    by apply lookup_singleton_Some in Hdata as [<- _].
  - intros ->. eexists. split; reflexivity.
Qed.

Lemma self_join_leaves_game_on :
  regular_run self_join_events init = true
  ∧ orderly_run self_join_events init = false
  ∧ run self_join_events init = Normal self_join_state
  ∧ rooms self_join_state !! Scenario.code = Some self_join_room
  ∧ (∀ t, in_room self_join_state Scenario.code t ↔ t = "s1")
  ∧ winner (game self_join_room) = Null
  ∧ gameActive (game self_join_room) = true.
Proof.
  repeat (split; [reflexivity|]). split; [|done].
  intros t. by apply only_connection.
Qed.

Lemma rebinding_leaves_game_on :
  regular_run rebinding_events init = true
  ∧ orderly_run rebinding_events init = false
  ∧ run rebinding_events init = Normal rebinding_state
  ∧ rooms rebinding_state !! Scenario.code = Some rebinding_room
  ∧ (∀ t, in_room rebinding_state Scenario.code t ↔ t = "s1")
  ∧ winner (game rebinding_room) = Null
  ∧ gameActive (game rebinding_room) = true.
Proof.
  repeat (split; [reflexivity|]). split; [|done].
  intros t. by apply only_connection.
Qed.

(** The flag of a finished game is switched on again, the winner still
    recorded, when the loser leaves and another socket joins. *)
Lemma finished_game_switched_on :
  ∃ st room, run rejoin_events init = Normal st
    ∧ rooms st !! Scenario.code = Some room
    ∧ winner (game room) = Won X ∧ gameActive (game room) = true.
Proof.
  destruct (run rejoin_events init) as [st|] eqn:Hrun;
    [|vm_compute in Hrun; discriminate Hrun].
  destruct (rooms st !! Scenario.code) as [room|] eqn:Hroom;
    [|vm_compute in Hrun; injection Hrun as <-; discriminate Hroom].
  exists st, room. split; [done|]. split; [done|].
  vm_compute in Hrun. injection Hrun as <-.
  vm_compute in Hroom. injection Hroom as <-. done.
Qed.

(** After a collision of codes the departure of the socket of the
    replaced room switches off the game of the two sockets that play. *)
Lemma collision_switches_pair_off :
  ∃ st room, run (collision_events ++ [ Disconnect "s1" ]) init = Normal st
    ∧ rooms st !! Scenario.code = Some room
    ∧ room_players room = ["s2"; "s3"]
    ∧ winner (game room) = Null ∧ gameActive (game room) = false.
Proof.
  destruct (run (collision_events ++ [ Disconnect "s1" ]) init)
    as [st|] eqn:Hrun; [|vm_compute in Hrun; discriminate Hrun].
  destruct (rooms st !! Scenario.code) as [room|] eqn:Hroom;
    [|vm_compute in Hrun; injection Hrun as <-; discriminate Hroom].
  exists st, room. split; [done|]. split; [done|].
  vm_compute in Hrun. injection Hrun as <-.
  vm_compute in Hroom. injection Hroom as <-. done.
Qed.

(** C6 (as the code has it).  [joinRoom] for a code that names no room
    replies with one emission, the error whose reason is
    "Sala não encontrada", and for a room that has two members with one
    emission, the error whose reason is "Sala cheia"; the emission is
    addressed to the requesting socket alone, and the two maps, hence
    every room, game and binding, are what they were. *)
Theorem joinRoom_refusals
    (st : state) (socket roomCode playerName reason : string)
    (group : string → list string) :
  (rooms st !! roomCode = None ∧ reason = "Sala não encontrada")
  ∨ (∃ room, rooms st !! roomCode = Some room
             ∧ (2 ≤ length (room_players room))%nat
             ∧ reason = "Sala cheia") →
  handle (JoinRoom socket roomCode playerName) st
  = Normal (st, [ (ToSocket socket, error reason) ])
  ∧ recipients group (ToSocket socket) = [socket].
Proof.
  intros Hcase. split; [|done]. simpl. unfold on_joinRoom.
  destruct Hcase as [[-> ->]|(room & -> & Hfull & ->)]; [done|].
  by rewrite (proj2 (Nat.leb_le _ _) Hfull).
Qed.

Lemma joinRoom_refusals_witness :
  ((rooms init !! Scenario.code = None
    ∧ "Sala não encontrada" = "Sala não encontrada")
   ∨ (∃ room, rooms init !! Scenario.code = Some room
              ∧ (2 ≤ length (room_players room))%nat
              ∧ "Sala não encontrada" = "Sala cheia"))
  ∧ handle (JoinRoom "s2" Scenario.code "Bob") init
    = Normal (init, [ (ToSocket "s2", error "Sala não encontrada") ])
  ∧ recipients (λ _, []) (ToSocket "s2") = ["s2"].
Proof.
  assert ((rooms init !! Scenario.code = None
           ∧ "Sala não encontrada" = "Sala não encontrada")
          ∨ (∃ room, rooms init !! Scenario.code = Some room
                     ∧ (2 ≤ length (room_players room))%nat
                     ∧ "Sala não encontrada" = "Sala cheia")) as H
    by (left; split; reflexivity).
  exact (conj H (joinRoom_refusals init "s2" Scenario.code "Bob"
                   "Sala não encontrada" (λ _, []) H)).
Defined.

(** C6, counterexample.  On the server without rooms a [joinRoom] is
    answered with the reason "Sala não encontrada", not with
    "room not found". *)
Lemma join_errors_as_stated_fails : ¬ join_errors_as_stated.
Proof.
  intros Hclaim.
  destruct (Hclaim init "s2" Scenario.code "Bob") as [Hmissing _].
  specialize (Hmissing eq_refl). discriminate Hmissing.
Qed.

(** C7.  [disconnect] from a socket that is bound to a room emits one
    notice, [playerDisconnected] with the name the socket is bound
    under, addressed to the other sockets of the room's group; it
    removes the socket from the member list and from the [players] map;
    when no member remains the room is deleted and its code finds
    nothing, otherwise the room stays with the members that remain and
    the same game switched off.  The notice does not reach the departing
    socket, and it reaches only remaining members when the transport's
    group lists only members. *)
Theorem disconnect_removes_member
    (st : state) (socket : string) (data : playerData) (room : room)
    (group : string → list string) :
  players st !! socket = Some data →
  rooms st !! roomCode data = Some room →
  let members := filter (λ id, id ≠ socket) (room_players room) in
  let notice := (ToOthers socket (roomCode data),
                 playerDisconnected (playerName data)) in
  ∃ st', handle (Disconnect socket) st = Normal (st', [notice])
    ∧ (socket ∉ members)
    ∧ (∀ id, id ∈ room_players room → id ≠ socket → id ∈ members)
    ∧ players st' = delete socket (players st)
    ∧ (members = [] → rooms st' = delete (roomCode data) (rooms st)
                      ∧ rooms st' !! roomCode data = None)
    ∧ (members ≠ [] →
       rooms st' = <[roomCode data :=
                       {| game := set_gameActive false (game room);
                          room_players := members |}]> (rooms st)
       ∧ ∃ room', rooms st' !! roomCode data = Some room'
           ∧ room_players room' = members
           ∧ gameActive (game room') = false)
    ∧ (socket ∉ recipients group notice.1)
    ∧ ((∀ id, id ∈ group (roomCode data) → id ∈ room_players room) →
       ∀ id, id ∈ recipients group notice.1 → id ∈ members).
Proof.
  intros Hdata Hroom members notice.
  eexists. split.
  { simpl. unfold on_disconnect. rewrite Hdata, Hroom. reflexivity. }
  simpl. fold members.
  split. { intros Hin. by apply list_elem_of_filter in Hin as [? _]. }
  split. { intros id Hin Hne. by apply list_elem_of_filter. }
  split; [done|]. split; [|split; [|split] ].
  - intros Hnil. rewrite Hnil. simpl. split; [done|]. apply lookup_delete_eq.
  - intros Hsome.
    destruct (length members =? 0)%nat eqn:Hlen.
    { apply Nat.eqb_eq, nil_length_inv in Hlen. done. }
    split; [done|]. eexists. by rewrite lookup_insert_eq.
  - intros Hin. by apply list_elem_of_filter in Hin as [? _].
  - intros Hgroup id Hin.
    apply list_elem_of_filter in Hin as [Hne Hin].
    apply list_elem_of_filter. eauto.
Qed.

Lemma disconnect_removes_member_witness :
  players won_game_state !! "s2"
  = Some {| roomCode := Scenario.code; playerName := "Bob" |}
  ∧ rooms won_game_state !! Scenario.code = Some won_game_room
  ∧ ∃ st', handle (Disconnect "s2") won_game_state
           = Normal (st', [ (ToOthers "s2" Scenario.code,
                             playerDisconnected "Bob") ])
      ∧ rooms st' !! Scenario.code
        = Some {| game := set_gameActive false top_row_won;
                  room_players := ["s1"] |}
      ∧ players st' !! "s2" = None.
Proof.
  assert (players won_game_state !! "s2"
          = Some {| roomCode := Scenario.code; playerName := "Bob" |}) as H0
    by reflexivity.
  assert (rooms won_game_state !! Scenario.code = Some won_game_room) as H1
    by reflexivity.
  split; [exact H0|]. split; [exact H1|].
  destruct (disconnect_removes_member won_game_state "s2" _ won_game_room
              (λ _, []) H0 H1)
    as (st' & Hstep & _ & _ & Hplayers & _ & Hrooms & _).
  exists st'. split; [exact Hstep|].
  destruct Hrooms as [Hrooms _]; [discriminate|].
  rewrite Hrooms, Hplayers. split.
  - apply lookup_insert_eq.
  - apply lookup_delete_eq.
Defined.

End ServerProperties.

(** * Further properties of the rule engine *)

Module GameInvariants.

Import Game GameFacts Derived Scenario.

(** ** Counting the cells of a board *)

Lemma count_cell_cons (c x : cell) (b : list cell) :
  count_cell c (x :: b)
  = ((if decide (x = c) then 1 else 0) + count_cell c b)%nat.
Proof.
  unfold count_cell. rewrite filter_cons. by destruct (decide (x = c)).
Qed.

(** A write moves one unit from the count of the old content of the slot
    to the count of the new one. *)
Lemma count_cell_insert (b : list cell) (i : nat) (old new c : cell) :
  b !! i = Some old →
  (count_cell c (<[i := new]> b) + (if decide (old = c) then 1 else 0)
   = count_cell c b + (if decide (new = c) then 1 else 0))%nat.
Proof.
  revert i. induction b as [|x b IH]; intros [|i] Hi; simplify_eq/=.
  - rewrite !count_cell_cons. lia.
  - rewrite !count_cell_cons. specialize (IH i Hi). lia.
Qed.

Lemma count_cell_total (b : list cell) :
  (count_cell Blank b + count_cell (Mark X) b + count_cell (Mark O) b
   = length b)%nat.
Proof.
  induction b as [|x b IH]; [done|].
  rewrite !count_cell_cons. simpl.
  destruct x as [|[]]; repeat case_decide; simplify_eq; lia.
Qed.

Lemma count_cell_empty_board (c : cell) :
  count_cell c empty_board = (if decide (Blank = c) then 9 else 0)%nat.
Proof.
  unfold empty_board. simpl. rewrite !count_cell_cons.
  unfold count_cell. simpl. case_decide; lia.
Qed.

(** A board without a blank slot passes the test of [every]. *)
Lemma no_blank_full (b : list cell) :
  count_cell Blank b = 0%nat → board_full b = true.
Proof.
  induction b as [|x b IH]; [done|].
  rewrite count_cell_cons. destruct x as [|m].
  - rewrite decide_True by done. lia.
  - rewrite decide_False by done. exact IH.
Qed.

(** A line of [m] takes three slots that hold [m]. *)
Lemma line_three_marks (b : list cell) (m : mark) :
  length b = 9%nat → three_in_line b m → (3 ≤ count_cell (Mark m) b)%nat.
Proof.
  intros Hlen (x & y & z & Hline & Hx & Hy & Hz).
  apply winPatterns_lines in Hline.
  do 9 (destruct b as [|? b]; [done|]). destruct b; [|done].
  simpl in Hline.
  repeat destruct Hline as [Hline|Hline]; simplify_eq; try done;
    vm_compute in Hx, Hy, Hz; simplify_eq;
    rewrite !count_cell_cons;
    rewrite !(decide_True (P := Mark m = Mark m)) by done; lia.
Qed.

(** ** The marks on the board along a run of accepted moves *)

Lemma accepted_run_counts (g0 g : TicTacToeGame) (n : nat) :
  fresh g0 → accepted_run g0 n g →
  length (board g) = 9%nat
  ∧ count_cell Blank (board g) = (9 - n)%nat
  ∧ (count_cell (Mark X) (board g) + count_cell (Mark O) (board g) = n)%nat
  ∧ count_cell (Mark X) (board g)
    = (count_cell (Mark O) (board g) + (if Nat.even n then 0 else 1))%nat.
Proof.
  intros Hfresh Hrun.
  induction Hrun as [|n g1 g2 index playerId Hrun IH Hmove].
  - destruct Hfresh as [-> _]. rewrite !count_cell_empty_board.
    rewrite decide_True by done. rewrite !decide_False by done. done.
  - destruct IH as (Hlen & Hblank & Hsum & Hbal).
    apply makeMove_true in Hmove
      as (Hactive & Hfree & p & _ & Hsym & -> & _).
    pose proof (accepted_run_turn _ _ _ Hfresh Hrun Hactive) as Hturn.
    pose proof (board_get_Some _ _ _ Hfree) as [Hin Hslot].
    unfold board_set. rewrite decide_True by lia.
    rewrite length_insert.
    pose proof (count_cell_total (board g1)) as Htotal.
    pose proof (count_cell_insert _ _ _ (Mark (symbol p)) Blank Hslot) as HB.
    pose proof (count_cell_insert _ _ _ (Mark (symbol p)) (Mark X) Hslot)
      as HX.
    pose proof (count_cell_insert _ _ _ (Mark (symbol p)) (Mark O) Hslot)
      as HO.
    rewrite decide_True in HB by done. rewrite decide_False in HB by done.
    rewrite decide_False in HX by done. rewrite decide_False in HO by done.
    rewrite Hsym, Hturn in HB, HX, HO |- *. unfold nth_mark in *.
    rewrite Nat.even_succ, <- Nat.negb_even.
    destruct (Nat.even n); simpl in *; repeat case_decide;
      try congruence; lia.
Qed.

(** ** The recorded result and the board *)

Lemma verdict_new_game : verdict_agrees new_game.
Proof.
  split.
  - intros [m Hm]. by apply empty_board_no_line in Hm.
  - intros Hfilled. destruct (Hfilled 0%Z) as [m Hm]; [lia|]. done.
Qed.

Lemma verdict_reset (g : TicTacToeGame) : verdict_agrees (reset g).
Proof. apply verdict_new_game. Qed.

Lemma verdict_set_player (id : string) (p : player) (g : TicTacToeGame) :
  verdict_agrees g → verdict_agrees (set_player id p g).
Proof. done. Qed.

Lemma verdict_set_gameActive (b : bool) (g : TicTacToeGame) :
  verdict_agrees g → verdict_agrees (set_gameActive b g).
Proof. done. Qed.

Lemma verdict_makeMove (index : Z) (playerId : string) (ok : bool)
    (g g' : TicTacToeGame) :
  game_inv g → verdict_agrees g →
  makeMove index playerId g = Normal (ok, g') → verdict_agrees g'.
Proof.
  intros Hinv Hverdict Hmove. destruct ok;
    [|by apply makeMove_false in Hmove as ->].
  pose proof (makeMove_inv _ _ _ _ _ Hinv Hmove) as [Hlen' _].
  apply makeMove_true in Hmove
    as (_ & Hblank & p & _ & Hsym & Hboard & _ & Hcases).
  unfold verdict_agrees.
  destruct (checkWinner (board g')) eqn:Hwin.
  - destruct Hcases as (-> & _ & Hturn).
    apply checkWinner_true in Hwin as [m Hm].
    assert (m = currentPlayer g) as ->.
    { rewrite Hboard, Hsym in Hm. by eapply lines_after_write. }
    rewrite Hsym. by rewrite Hturn.
  - apply checkWinner_false in Hwin.
    destruct (board_full (board g')) eqn:Hfull.
    + destruct Hcases as (-> & _). by apply board_full_true in Hfull.
    + destruct Hcases as (-> & _).
      apply (board_full_false _ Hlen') in Hfull.
      unfold verdict_agrees in Hverdict.
      destruct (winner g) as [|m|]; [done| |].
      * destruct Hverdict as [(x & y & z & Hline & Hx & Hy & Hz) _].
        destruct Hwin. exists m, x, y, z. rewrite Hboard.
        split; [done|]. split; [by apply board_set_keeps|].
        split; by apply board_set_keeps.
      * destruct Hverdict as [Hfilled _].
        pose proof (board_get_Some _ _ _ Hblank) as [Hin _].
        rewrite (inv_slots _ Hinv) in Hin.
        destruct (Hfilled index) as [m Hm]; [lia|]. congruence.
Qed.

(** ** Further properties *)

(** X1.  [checkWinner] answers [true] exactly when one marker holds the
    three cells of a row, a column or a diagonal, and a later write into
    a blank cell does not undo that answer. *)
Theorem checkWinner_decides_lines (b : list cell) :
  (checkWinner b = true ↔
   ∃ m x y z, (row x y z ∨ column x y z ∨ diagonal x y z)
     ∧ board_get b x = Some (Mark m)
     ∧ board_get b y = Some (Mark m)
     ∧ board_get b z = Some (Mark m))
  ∧ (checkWinner b = true →
     ∀ index v, board_get b index = Some Blank →
       checkWinner (board_set b index v) = true).
Proof.
  split; [apply checkWinner_true|].
  intros Hwin index v Hblank.
  apply checkWinner_true in Hwin as (m & x & y & z & Hline & Hx & Hy & Hz).
  apply checkWinner_true. exists m, x, y, z.
  split; [done|]. split; [by apply board_set_keeps|].
  split; by apply board_set_keeps.
Qed.

(** X2.  After [n] accepted moves from a fresh or freshly reset engine the
    board holds [n] markers and [9 - n] blanks, 'X' has as many markers
    as 'O' when [n] is even and one more when [n] is odd, and [n] is at
    most 9. *)
Theorem marks_on_the_board (g0 g : TicTacToeGame) (n : nat) :
  fresh g0 → accepted_run g0 n g →
  (count_cell (Mark X) (board g) + count_cell (Mark O) (board g) = n)%nat
  ∧ count_cell Blank (board g) = (9 - n)%nat
  ∧ count_cell (Mark X) (board g)
    = (count_cell (Mark O) (board g) + (if Nat.even n then 0 else 1))%nat
  ∧ (n ≤ 9)%nat.
Proof.
  intros Hfresh Hrun.
  destruct (accepted_run_counts _ _ _ Hfresh Hrun)
    as (Hlen & Hblank & Hsum & Hbal).
  pose proof (count_cell_total (board g)) as Htotal.
  repeat split; try done. lia.
Qed.

Lemma marks_on_the_board_witness :
  fresh started ∧ accepted_run started 4 top_row_open
  ∧ (count_cell (Mark X) (board top_row_open)
     + count_cell (Mark O) (board top_row_open) = 4)%nat
  ∧ count_cell Blank (board top_row_open) = (9 - 4)%nat
  ∧ count_cell (Mark X) (board top_row_open)
    = (count_cell (Mark O) (board top_row_open)
       + (if Nat.even 4 then 0 else 1))%nat
  ∧ (4 ≤ 9)%nat.
Proof.
  assert (fresh started) as H0 by (split; reflexivity).
  assert (accepted_run started 4 top_row_open) as H1
    by (apply (play_accepted_run top_row_moves); reflexivity).
  exact (conj H0 (conj H1 (marks_on_the_board _ _ _ H0 H1))).
Defined.

(** X3.  From a fresh or freshly reset engine a line of 'X' takes at
    least five accepted moves and a line of 'O' at least six, and the
    ninth accepted move switches the game off. *)
Theorem game_length (g0 g : TicTacToeGame) (n : nat) :
  fresh g0 → accepted_run g0 n g →
  (three_in_line (board g) X → (5 ≤ n)%nat)
  ∧ (three_in_line (board g) O → (6 ≤ n)%nat)
  ∧ (n = 9%nat → gameActive g = false).
Proof.
  intros Hfresh Hrun.
  destruct (accepted_run_counts _ _ _ Hfresh Hrun)
    as (Hlen & Hblank & Hsum & Hbal).
  split; [|split].
  - intros Hline%(line_three_marks _ _ Hlen).
    destruct (Nat.even n); lia.
  - intros Hline%(line_three_marks _ _ Hlen).
    destruct (Nat.even n); lia.
  - intros ->. inversion Hrun as [|n g1 g2 index playerId _ Hmove]; subst.
    apply makeMove_true in Hmove as (_ & _ & p & _ & _ & _ & _ & Hcases).
    rewrite (no_blank_full (board g)) in Hcases by (rewrite Hblank; lia).
    destruct (checkWinner (board g)); by destruct Hcases as (_ & ? & _).
Qed.

Lemma game_length_witness :
  fresh started ∧ accepted_run started 5 top_row_won
  ∧ (three_in_line (board top_row_won) X → (5 ≤ 5)%nat)
  ∧ (three_in_line (board top_row_won) O → (6 ≤ 5)%nat)
  ∧ (5%nat = 9%nat → gameActive top_row_won = false).
Proof.
  assert (fresh started) as H0 by (split; reflexivity).
  assert (accepted_run started 5 top_row_won) as H1
    by (apply (play_accepted_run top_row_game); reflexivity).
  exact (conj H0 (conj H1 (game_length _ _ _ H0 H1))).
Defined.

(** X4.  Right after [reset()] a call for any of the nine cells on behalf
    of a participant whose symbol is 'X' is accepted, leaves that one
    marker on the board and passes the turn to 'O' with the game on; the
    same call for a participant whose symbol is 'O' returns [false] and
    changes nothing. *)
Theorem first_move_after_reset
    (g : TicTacToeGame) (index : Z) (playerId : string) (p : player) :
  obj_get (players g) playerId = Some p →
  (0 ≤ index < 9)%Z →
  makeMove index playerId (reset g)
  = if decide (symbol p = X)
    then Normal (true, {| board := <[Z.to_nat index := Mark X]> empty_board;
                          currentPlayer := O; players := players g;
                          gameActive := true; winner := Null |})
    else Normal (false, reset g).
Proof.
  intros Hp Hi.
  assert (∃ k : nat, index = Z.of_nat k ∧ (k < 9)%nat) as (k & -> & Hk)
    by (exists (Z.to_nat index); lia).
  unfold makeMove.
  do 9 (destruct k as [|k];
        [simpl; rewrite Hp; by destruct p as [? [] ?]|]).
  lia.
Qed.

Lemma first_move_after_reset_witness :
  obj_get (players top_row_won) "s1" = Some alice
  ∧ (0 ≤ 4 < 9)%Z
  ∧ makeMove 4 "s1" (reset top_row_won) = Normal (true, centre_opened).
Proof.
  assert (obj_get (players top_row_won) "s1" = Some alice) as H0
    by reflexivity.
  assert (0 ≤ 4 < 9)%Z as H1 by lia.
  exact (conj H0 (conj H1
           (first_move_after_reset top_row_won 4 "s1" alice H0 H1))).
Defined.

(** X5.  A reset forgets the moves: after any run of accepted moves
    [reset()] gives the game that [reset()] would have given before
    them, and a second [reset()] changes nothing. *)
Theorem reset_forgets_moves (g g' : TicTacToeGame) (n : nat) :
  accepted_run g n g' →
  reset g' = reset g ∧ reset (reset g') = reset g'.
Proof.
  intros Hrun. split; [|done].
  induction Hrun as [|n g1 g2 index playerId _ IH Hmove]; [done|].
  rewrite <- IH. unfold reset.
  by rewrite (makeMove_players _ _ _ _ _ Hmove).
Qed.

Lemma reset_forgets_moves_witness :
  accepted_run started 5 top_row_won
  ∧ reset top_row_won = reset started
  ∧ reset (reset top_row_won) = reset top_row_won.
Proof.
  assert (accepted_run started 5 top_row_won) as H0
    by (apply (play_accepted_run top_row_game); reflexivity).
  exact (conj H0 (reset_forgets_moves _ _ _ H0)).
Defined.

End GameInvariants.

(** * Further properties of the event handlers *)

Module ServerInvariants.

Import Game GameFacts Server ServerFacts Derived GameInvariants Scenario.

(** ** The entries of [game.players] *)

Lemma obj_set_keys {A : Type} (o : list (string * A)) (k : string) (v : A) :
  (obj_set o k v).*1 = if decide (k ∈ o.*1) then o.*1 else o.*1 ++ [k].
Proof.
  induction o as [|[k' v'] o IH]; [done|].
  cbn [obj_set]. rewrite fmap_cons. cbn [fst].
  destruct (decide (k' = k)) as [->|Hne].
  - rewrite fmap_cons. cbn [fst].
    rewrite decide_True by (apply elem_of_cons; by left). done.
  - rewrite fmap_cons, IH. cbn [fst]. destruct (decide (k ∈ o.*1)).
    + rewrite decide_True by (apply elem_of_cons; by right). done.
    + rewrite decide_False; [done|]. intros [?|?]%elem_of_cons; congruence.
Qed.

Lemma obj_set_Forall {A : Type} (P : string * A → Prop)
    (o : list (string * A)) (k : string) (v : A) :
  P (k, v) → Forall P o → Forall P (obj_set o k v).
Proof.
  intros Hv. induction 1 as [|[k' v'] o Hx Ho IH]; simpl.
  - by constructor.
  - destruct (decide (k' = k)); by constructor.
Qed.

Lemma set_player_participants (id : string) (p : player) (g : TicTacToeGame) :
  (symbol p = X ↔ isHost p = true) →
  participants_ok (Game.players g) →
  participants_ok (Game.players (set_player id p g)).
Proof.
  intros Hp [Hkeys Hall]. split; simpl.
  - rewrite obj_set_keys. case_decide as Hin; [done|].
    apply NoDup_app. split; [done|]. split; [|apply NoDup_singleton].
    intros x Hx ->%list_elem_of_singleton. done.
  - by apply obj_set_Forall.
Qed.

(** ** Invariants of the games of all rooms *)

Section GameInvariant.

Variable P : TicTacToeGame → Prop.

Hypothesis P_new : P new_game.
Hypothesis P_player : ∀ id p g,
  (symbol p = X ↔ isHost p = true) → P g → P (set_player id p g).
Hypothesis P_flag : ∀ b g, P g → P (set_gameActive b g).
Hypothesis P_move : ∀ index id ok g g',
  game_inv g → P g → Game.makeMove index id g = Normal (ok, g') → P g'.
Hypothesis P_reset : ∀ g, P g → P (reset g).

Lemma handle_all_games (e : event) (st st' : state) (out : list emission) :
  sound st → all_games P st → handle e st = Normal (st', out) →
  all_games P st'.
Proof using P_new P_player P_flag P_move P_reset.
  unfold all_games. intros [_ Hinv] Hall H.
  destruct e as [s n r|s c n|s i|s|s]; simpl in H.
  - apply on_createRoom_Normal in H as [Hrooms _].
    intros code room. rewrite Hrooms, lookup_insert.
    case_decide; intros Hroom; simplify_eq; simpl; [|eauto].
    by apply P_player.
  - apply on_joinRoom_Normal in H as [->|(room0 & Hroom0 & _ & Hrooms & _)];
      [done|].
    intros code room. rewrite Hrooms, lookup_insert.
    case_decide; intros Hroom; simplify_eq; simpl; [|eauto].
    apply P_flag, P_player; [done|eauto].
  - apply on_makeMove_Normal in H
      as [->|(data & room0 & ok & g & _ & Hroom0 & Hmove & Hrooms & _)];
      [done|].
    intros code room. rewrite Hrooms, lookup_insert.
    case_decide; intros Hroom; simplify_eq; simpl; [|eauto].
    eapply P_move; [| |done]; eauto.
  - apply on_resetGame_Normal in H
      as [->|(data & room0 & _ & Hroom0 & Hrooms & _)]; [done|].
    intros code room. rewrite Hrooms, lookup_insert.
    case_decide; intros Hroom; simplify_eq; simpl; [|eauto].
    apply P_reset. eauto.
  - apply on_disconnect_Normal in H as [->|(data & _ & _ & Hrooms)]; [done|].
    destruct (rooms st !! roomCode data) as [room0|] eqn:Hroom0;
      [|rewrite Hrooms; eauto].
    simpl in Hrooms.
    destruct (length (filter (λ id, id ≠ s) (room_players room0)) =? 0)%nat.
    + intros code room. rewrite Hrooms, lookup_delete.
      case_decide; intros Hroom; simplify_eq; eauto.
    + intros code room. rewrite Hrooms, lookup_insert.
      case_decide; intros Hroom; simplify_eq; simpl; [|eauto].
      apply P_flag. eauto.
Qed.

Lemma reachable_all_games (st : state) : reachable st → all_games P st.
Proof using P_new P_player P_flag P_move P_reset.
  intros [es Hes]. revert Hes.
  assert (all_games P init) as Hinit.
  { intros code room H. simpl in H. by rewrite lookup_empty in H. }
  revert Hinit. generalize init_sound. generalize init.
  induction es as [|e es IH]; intros st0 Hsound Hall H; simpl in H.
  - by simplify_eq.
  - unfold_bind. destruct (handle e st0) as [[st1 out]|] eqn:He; [|done].
    eapply IH; [| |done].
    + by eapply handle_sound.
    + by eapply handle_all_games.
Qed.

End GameInvariant.

Lemma reachable_verdict (st : state) :
  reachable st → all_games verdict_agrees st.
Proof.
  apply reachable_all_games.
  - apply verdict_new_game.
  - intros id p g _. apply verdict_set_player.
  - apply verdict_set_gameActive.
  - apply verdict_makeMove.
  - intros g _. apply verdict_reset.
Qed.

Lemma reachable_participants (st : state) :
  reachable st → all_games (λ g, participants_ok (Game.players g)) st.
Proof.
  apply reachable_all_games.
  - split; [apply NoDup_nil_2|constructor].
  - apply set_player_participants.
  - done.
  - intros index id ok g g' _ Hg Hmove.
    by rewrite (makeMove_players _ _ _ _ _ Hmove).
  - done.
Qed.

(** ** The [players] map along runs without a collision of codes *)

Lemma init_index_agrees : index_agrees init.
Proof. intros socket data H. simpl in H. by rewrite lookup_empty in H. Qed.

Lemma handle_index_agrees (e : event) (st st' : state) (out : list emission) :
  index_agrees st → fresh_code e st = true →
  handle e st = Normal (st', out) → index_agrees st'.
Proof.
  unfold index_agrees. intros Hidx Hfresh H.
  destruct e as [s n r|s c n|s i|s|s]; simpl in H; cbn [fresh_code] in Hfresh.
  - apply bool_decide_eq_true in Hfresh.
    apply on_createRoom_Normal in H as [Hrooms Hplayers]. simpl in *.
    intros socket data. rewrite Hplayers, Hrooms, lookup_insert.
    case_decide; intros Hdata; simplify_eq; simpl.
    + rewrite lookup_insert_eq. eexists _, _. split; [done|]. simpl.
      split; [by apply list_elem_of_singleton|].
      by rewrite decide_True.
    + destruct (Hidx _ _ Hdata) as (room & p & Hroom & Hrest).
      rewrite lookup_insert_ne by congruence. eauto.
  - apply on_joinRoom_Normal in H
      as [->|(room0 & Hroom0 & _ & Hrooms & Hplayers)]; [done|].
    intros socket data. rewrite Hplayers, Hrooms, lookup_insert.
    case_decide; intros Hdata; simplify_eq; simpl.
    + rewrite lookup_insert_eq. eexists _, _. split; [done|]. simpl.
      split; [apply elem_of_app; right; by apply list_elem_of_singleton|].
      by rewrite obj_get_set_eq.
    + destruct (Hidx _ _ Hdata) as (room & p & Hroom & Hin & Hp & Hname).
      rewrite lookup_insert. case_decide as Hcode; simplify_eq; [|eauto].
      eexists _, p. split; [done|]. simpl.
      split; [apply elem_of_app; by left|].
      by rewrite obj_get_set_ne.
  - apply on_makeMove_Normal in H
      as [->|(data0 & room0 & ok & g & _ & Hroom0 & Hmove & Hrooms & Hplayers)];
      [done|].
    intros socket data. rewrite Hplayers, Hrooms. intros Hdata.
    destruct (Hidx _ _ Hdata) as (room & p & Hroom & Hin & Hp & Hname).
    rewrite lookup_insert. case_decide as Hcode; [|eauto].
    rewrite <- Hcode in Hroom. simplify_eq.
    eexists _, p. split; [done|]. simpl.
    by rewrite (makeMove_players _ _ _ _ _ Hmove).
  - apply on_resetGame_Normal in H
      as [->|(data0 & room0 & _ & Hroom0 & Hrooms & Hplayers)]; [done|].
    intros socket data. rewrite Hplayers, Hrooms. intros Hdata.
    destruct (Hidx _ _ Hdata) as (room & p & Hroom & Hin & Hp & Hname).
    rewrite lookup_insert. case_decide as Hcode; [|eauto].
    rewrite <- Hcode in Hroom. simplify_eq. eexists _, p. eauto.
  - apply on_disconnect_Normal in H
      as [->|(data0 & Hdata0 & Hplayers & Hrooms)]; [done|].
    destruct (Hidx _ _ Hdata0) as (room0 & p0 & Hroom0 & Hin0 & _).
    rewrite Hroom0 in Hrooms. simpl in Hrooms.
    assert (∀ t, t ≠ s → t ∈ room_players room0 →
                 t ∈ filter (λ id, id ≠ s) (room_players room0)) as Hstay.
    { intros t Hne Ht. by apply list_elem_of_filter. }
    intros socket data. rewrite Hplayers, lookup_delete.
    case_decide; intros Hdata; [done|].
    destruct (Hidx _ _ Hdata) as (room & p & Hroom & Hin & Hp & Hname).
    rewrite Hrooms.
    destruct (length (filter (λ id, id ≠ s) (room_players room0)) =? 0)%nat
      eqn:Hempty.
    + apply Nat.eqb_eq, nil_length_inv in Hempty.
      rewrite lookup_delete. case_decide as Hcode; [|eauto].
      rewrite <- Hcode in Hroom. simplify_eq.
      apply Hstay in Hin; [|done]. rewrite Hempty in Hin.
      by apply elem_of_nil in Hin.
    + rewrite lookup_insert. case_decide as Hcode; [|eauto].
      rewrite <- Hcode in Hroom. simplify_eq.
      eexists _, p. split; [done|]. simpl. split; [by apply Hstay|done].
Qed.

(** No handler raises in a state in which the [players] map agrees with
    the rooms. *)
Lemma handle_completes_agreeing (e : event) (st : state) :
  sound st → members_known st → index_agrees st →
  ∃ st' out, handle e st = Normal (st', out).
Proof.
  intros [Hmem _] Hknown Hidx.
  destruct e as [s n r|s c n|s i|s|s]; simpl.
  - unfold on_createRoom. eauto.
  - unfold on_joinRoom.
    destruct (rooms st !! c) as [room|] eqn:Hroom; [|eauto].
    destruct (2 <=? length (room_players room))%nat; [eauto|].
    pose proof (Hmem _ _ Hroom) as Hbounds.
    destruct (room_players room) as [|id0 rest] eqn:Hmembers;
      [simpl in Hbounds; lia|].
    simpl. unfold obj_read. simpl.
    assert (is_Some (obj_get (obj_set (Game.players (game room)) s
                       {| name := n; symbol := O; isHost := false |}) id0))
      as [q ->]; [|unfold_bind; eauto].
    destruct (decide (s = id0)) as [->|Hne].
    + rewrite obj_get_set_eq. eauto.
    + rewrite obj_get_set_ne by done.
      eapply Hknown; [done|]. rewrite Hmembers. apply elem_of_cons. by left.
  - unfold on_makeMove.
    destruct (players st !! s) as [data|] eqn:Hdata; [|eauto].
    destruct (Hidx _ _ Hdata) as (room & p & Hroom & _ & Hp & _).
    rewrite Hroom.
    destruct (makeMove_participant i s _ _ Hp) as (ok & g & Hmove).
    rewrite Hmove. unfold_bind. destruct ok; [|eauto].
    unfold obj_read. rewrite (makeMove_players _ _ _ _ _ Hmove), Hp.
    destruct (gameActive g) eqn:Hactive; simpl; [eauto|].
    case_bool_decide as Hdraw; [eauto|].
    destruct (winner_name_found _ _ _ _ Hmove Hactive Hdraw) as [w ->]. eauto.
  - unfold on_resetGame. repeat case_match; eauto.
  - unfold on_disconnect. repeat case_match; eauto.
Qed.

Lemma collision_free_run (es : list event) (st : state) :
  sound st → members_known st → index_agrees st →
  collision_free es st = true →
  ∃ st', run es st = Normal st' ∧ index_agrees st'.
Proof.
  revert st. induction es as [|e es IH]; intros st Hsound Hknown Hidx Hfree;
    simpl in *; [eauto|].
  apply andb_prop in Hfree as [He Hes].
  destruct (handle_completes_agreeing e st Hsound Hknown Hidx)
    as (st1 & out & Hstep).
  rewrite Hstep in Hes |- *. unfold_bind. apply IH; [| | |done].
  - by eapply handle_sound.
  - by eapply handle_members_known.
  - by eapply handle_index_agrees.
Qed.

(** ** The search for the winner's name *)

Lemma find_first {A : Type} (P : A → bool) (l : list A) (x : A) :
  find P l = Some x →
  ∃ l1 l2, l = l1 ++ x :: l2 ∧ P x = true ∧ Forall (λ y, P y = false) l1.
Proof.
  induction l as [|a l IH]; simpl; [done|].
  destruct (P a) eqn:Ha.
  - intros [= ->]. by exists [], l.
  - intros (l1 & l2 & -> & Hx & Hl1)%IH.
    exists (a :: l1), l2. split; [done|]. split; [done|]. by constructor.
Qed.

Lemma winner_name_inv (g : TicTacToeGame) (n : string) :
  winner_name g = Normal n →
  ∃ before id after q,
    (Game.players g).*1 = before ++ id :: after
    ∧ obj_get (Game.players g) id = Some q
    ∧ Won (symbol q) = winner g
    ∧ n = name q
    ∧ Forall (λ id', ∀ q', obj_get (Game.players g) id' = Some q' →
                            Won (symbol q') ≠ winner g) before.
Proof.
  unfold winner_name, obj_read. unfold_bind. intros H.
  destruct (find _ (Game.players g).*1) as [id|] eqn:Hfind; [|done].
  apply find_first in Hfind as (before & after & Hkeys & Htest & Hbefore).
  destruct (obj_get (Game.players g) id) as [q|] eqn:Hq; [|done].
  apply bool_decide_eq_true in Htest. simplify_eq.
  exists before, id, after, q. repeat split; try done.
  eapply Forall_impl; [exact Hbefore|]. simpl.
  intros id' Hfalse q' Hq'. rewrite Hq' in Hfalse.
  by apply bool_decide_eq_false in Hfalse.
Qed.

Lemma obj_get_elem {A : Type} (o : list (string * A)) (k : string) (v : A) :
  obj_get o k = Some v → (k, v) ∈ o.
Proof.
  induction o as [|[k' v'] o IH]; simpl; [done|].
  destruct (decide (k' = k)) as [->|Hne].
  - intros [= ->]. apply elem_of_cons. by left.
  - intros H. apply elem_of_cons. right. by apply IH.
Qed.

(** ** Further properties *)

(** X6.  In every state the server can reach, a room has one or two
    members, each member has an entry in [game.players], the board has
    nine slots, [game.players] has one entry per key, and the host flag
    is set exactly on the entries with symbol 'X'. *)
Theorem rooms_of_reachable_states
    (st : state) (code : string) (room : room) :
  reachable st → rooms st !! code = Some room →
  (1 ≤ length (room_players room) ≤ 2)%nat
  ∧ length (board (game room)) = 9%nat
  ∧ (∀ id, id ∈ room_players room →
           is_Some (obj_get (Game.players (game room)) id))
  ∧ NoDup (Game.players (game room)).*1
  ∧ (∀ id p, obj_get (Game.players (game room)) id = Some p →
             (symbol p = X ↔ isHost p = true)).
Proof.
  intros Hreach Hroom.
  destruct (reachable_sound st Hreach) as [Hmem Hgames].
  destruct (reachable_participants st Hreach _ _ Hroom) as [Hkeys Hall].
  split; [eauto|]. split; [by eapply inv_slots, Hgames|].
  split. { intros id Hin. by eapply (reachable_members_known st). }
  split; [done|].
  intros id p Hp%obj_get_elem.
  rewrite Forall_forall in Hall. by apply (Hall (id, p)).
Qed.

Lemma rooms_of_reachable_states_witness :
  reachable won_game_state
  ∧ rooms won_game_state !! Scenario.code = Some won_game_room
  ∧ (1 ≤ length (room_players won_game_room) ≤ 2)%nat
  ∧ length (board (game won_game_room)) = 9%nat
  ∧ (∀ id, id ∈ room_players won_game_room →
           is_Some (obj_get (Game.players (game won_game_room)) id))
  ∧ NoDup (Game.players (game won_game_room)).*1
  ∧ (∀ id p, obj_get (Game.players (game won_game_room)) id = Some p →
             (symbol p = X ↔ isHost p = true)).
Proof.
  assert (reachable won_game_state) as H0
    by (exists won_game_events; reflexivity).
  assert (rooms won_game_state !! Scenario.code = Some won_game_room) as H1
    by reflexivity.
  exact (conj H0 (conj H1 (rooms_of_reachable_states _ _ _ H0 H1))).
Defined.

(** X7.  In every state the server can reach, the recorded result of a
    game agrees with its board: while [winner] is [null] no line is
    complete and a cell is free; a recorded winner holds a line and is
    the marker on turn; a recorded draw has all nine cells taken and no
    line. *)
Theorem recorded_result_agrees
    (st : state) (code : string) (room : room) :
  reachable st → rooms st !! code = Some room →
  (winner (game room) = Null →
   (¬ ∃ m, three_in_line (board (game room)) m)
   ∧ ¬ filled (board (game room)))
  ∧ (∀ m, winner (game room) = Won m →
          three_in_line (board (game room)) m
          ∧ currentPlayer (game room) = m)
  ∧ (winner (game room) = Draw →
     filled (board (game room))
     ∧ ¬ ∃ m, three_in_line (board (game room)) m).
Proof.
  intros Hreach Hroom.
  pose proof (reachable_verdict st Hreach _ _ Hroom) as Hverdict.
  unfold verdict_agrees in Hverdict.
  destruct (winner (game room)) as [|m|].
  - split; [done|]. split; [|done]. intros m [=].
  - split; [done|]. split; [|done]. by intros m' [= <-].
  - split; [done|]. split; [|done]. intros m [=].
Qed.

Lemma recorded_result_agrees_witness :
  reachable won_game_state
  ∧ rooms won_game_state !! Scenario.code = Some won_game_room
  ∧ three_in_line (board (game won_game_room)) X
  ∧ currentPlayer (game won_game_room) = X.
Proof.
  assert (reachable won_game_state) as H0
    by (exists won_game_events; reflexivity).
  assert (rooms won_game_state !! Scenario.code = Some won_game_room) as H1
    by reflexivity.
  split; [exact H0|]. split; [exact H1|].
  destruct (recorded_result_agrees _ _ _ H0 H1) as (_ & Hwon & _).
  exact (Hwon X eq_refl).
Defined.

Lemma serve_well_formed (es : list event) (st : state) :
  serve (WellFormed <$> es) st = run es st.
Proof.
  revert st. induction es as [|e es IH]; intros st; simpl; [done|].
  unfold_bind. destruct (handle e st) as [ [st1 out]|]; [apply IH|done].
Qed.

Lemma serve_app (rs rs' : list request) (st st' : state) :
  serve rs st = Normal st' → serve (rs ++ rs') st = serve rs' st'.
Proof.
  revert st. induction rs as [|r rs IH]; intros st; simpl.
  - by intros [= ->].
  - unfold_bind. destruct (receive r st) as [ [st1 out]|]; [apply IH|done].
Qed.

(** X8.  A run of events, with payloads of the shapes the client page
    sends, in which no [createRoom] draws the code of a stored room goes
    through: no handler raises a [TypeError].  The shape of the payloads
    matters.  After such a run a [joinRoom] with an undefined or null
    payload raises, and a [makeMove] whose index has no property key
    raises when it comes from a socket that the [players] map binds and
    changes nothing when it comes from another. *)
Theorem collision_free_runs_complete (es : list event) :
  collision_free es init = true →
  ∃ st, run es init = Normal st
    ∧ serve (WellFormed <$> es) init = Normal st
    ∧ (∀ socket,
         serve ((WellFormed <$> es) ++ [ JoinRoomNullish socket ]) init
         = TypeError)
    ∧ (∀ socket,
         serve ((WellFormed <$> es) ++ [ MakeMoveNoKey socket ]) init
         = match players st !! socket with
           | Some _ => TypeError
           | None => Normal st
           end).
Proof.
  intros Hfree.
  destruct (collision_free_run es init init_sound init_members_known
              init_index_agrees Hfree) as (st & Hrun & Hidx).
  exists st. split; [done|].
  assert (serve (WellFormed <$> es) init = Normal st) as Hserve
    by (by rewrite serve_well_formed).
  split; [done|]. split.
  - intros socket. by rewrite (serve_app _ _ _ _ Hserve).
  - intros socket. rewrite (serve_app _ _ _ _ Hserve). simpl.
    destruct (players st !! socket) as [data|] eqn:Hdata; [|done].
    by destruct (Hidx _ _ Hdata) as (room & p & -> & _).
Qed.

Lemma collision_free_runs_complete_witness :
  collision_free rejoin_events init = true
  ∧ ∃ st, run rejoin_events init = Normal st
    ∧ serve (WellFormed <$> rejoin_events) init = Normal st
    ∧ (∀ socket,
         serve ((WellFormed <$> rejoin_events) ++ [ JoinRoomNullish socket ])
               init
         = TypeError)
    ∧ (∀ socket,
         serve ((WellFormed <$> rejoin_events) ++ [ MakeMoveNoKey socket ])
               init
         = match players st !! socket with
           | Some _ => TypeError
           | None => Normal st
           end).
Proof.
  assert (collision_free rejoin_events init = true) as H0 by reflexivity.
  exact (conj H0 (collision_free_runs_complete rejoin_events H0)).
Defined.

(** X9.  After a run in which no [createRoom] draws the code of a stored
    room, every socket that the [players] map binds is a member of the
    room stored under its code and has an entry in that room's
    [game.players] with the name it is bound under. *)
Theorem bound_sockets_take_part
    (es : list event) (st : state) (socket : string) (data : playerData) :
  collision_free es init = true →
  run es init = Normal st →
  players st !! socket = Some data →
  ∃ room p, rooms st !! roomCode data = Some room
    ∧ socket ∈ room_players room
    ∧ obj_get (Game.players (game room)) socket = Some p
    ∧ name p = playerName data.
Proof.
  intros Hfree Hrun Hdata.
  destruct (collision_free_run es init init_sound init_members_known
              init_index_agrees Hfree) as (st' & Hrun' & Hidx).
  rewrite Hrun in Hrun'. injection Hrun' as <-. by apply Hidx.
Qed.

Lemma bound_sockets_take_part_witness :
  collision_free won_game_events init = true
  ∧ run won_game_events init = Normal won_game_state
  ∧ players won_game_state !! "s2"
    = Some {| roomCode := Scenario.code; playerName := "Bob" |}
  ∧ ∃ room p, rooms won_game_state !! Scenario.code = Some room
      ∧ "s2" ∈ room_players room
      ∧ obj_get (Game.players (game room)) "s2" = Some p
      ∧ name p = "Bob".
Proof.
  assert (collision_free won_game_events init = true) as H0 by reflexivity.
  assert (run won_game_events init = Normal won_game_state) as H1
    by reflexivity.
  assert (players won_game_state !! "s2"
          = Some {| roomCode := Scenario.code; playerName := "Bob" |}) as H2
    by reflexivity.
  exact (conj H0 (conj H1 (conj H2
           (bound_sockets_take_part _ _ _ _ H0 H1 H2)))).
Defined.

(** X10.  The code that [createRoom] sends back opens the room: whatever
    the maps held, after a [createRoom] by one socket a [joinRoom] by
    another socket with that code is accepted, tells the joiner the
    creator's name and symbol 'O', and leaves the room with the two
    members in order, the creator as host with 'X', an empty board, 'X'
    on turn and the game on. *)
Theorem create_then_join
    (st : state) (creator joiner creatorName joinerName random36 : string) :
  creator ≠ joiner →
  let code := RoomCode.generateRoomCode random36 in
  let host := {| name := creatorName; symbol := X; isHost := true |} in
  let guest := {| name := joinerName; symbol := O; isHost := false |} in
  let paired :=
    {| board := empty_board; currentPlayer := X;
       Game.players := [(creator, host); (joiner, guest)];
       gameActive := true; winner := Null |} in
  ∃ st1 st2,
    handle (CreateRoom creator creatorName random36) st
    = Normal (st1, [ (ToSocket creator, roomCreated code X creatorName);
                     (ToRoom code, playerJoined creatorName 1) ])
    ∧ handle (JoinRoom joiner code joinerName) st1
      = Normal (st2, [ (ToSocket joiner,
                        roomJoined code O joinerName creatorName);
                       (ToOthers joiner code, opponentJoined joinerName);
                       (ToRoom code,
                        gameState empty_board X true
                                  [(creator, host); (joiner, guest)]) ])
    ∧ rooms st2 !! code
      = Some {| game := paired; room_players := [creator; joiner] |}
    ∧ players st2 !! creator
      = Some {| roomCode := code; playerName := creatorName |}
    ∧ players st2 !! joiner
      = Some {| roomCode := code; playerName := joinerName |}.
Proof.
  intros Hne code host guest paired.
  eexists _, _. split; [reflexivity|].
  simpl. unfold on_joinRoom. simpl. rewrite lookup_insert_eq. simpl.
  rewrite decide_False by done. unfold obj_read. simpl.
  rewrite decide_True by done. unfold_bind.
  split; [reflexivity|]. simpl.
  rewrite lookup_insert_eq. split.
  { unfold set_gameActive, set_player. simpl.
    by rewrite decide_False by done. }
  rewrite lookup_insert_ne by congruence.
  by rewrite !lookup_insert_eq.
Qed.

Lemma create_then_join_witness :
  "s1" ≠ "s2"
  ∧ ∃ st1 st2,
      handle (CreateRoom "s1" "Alice" numeral) init
      = Normal (st1, [ (ToSocket "s1", roomCreated Scenario.code X "Alice");
                       (ToRoom Scenario.code, playerJoined "Alice" 1) ])
      ∧ handle (JoinRoom "s2" Scenario.code "Bob") st1
        = Normal (st2, [ (ToSocket "s2",
                          roomJoined Scenario.code O "Bob" "Alice");
                         (ToOthers "s2" Scenario.code, opponentJoined "Bob");
                         (ToRoom Scenario.code,
                          gameState empty_board X true
                                    [("s1", alice); ("s2", bob)]) ])
      ∧ rooms st2 !! Scenario.code
        = Some {| game := started; room_players := ["s1"; "s2"] |}
      ∧ players st2 !! "s1"
        = Some {| roomCode := Scenario.code; playerName := "Alice" |}
      ∧ players st2 !! "s2"
        = Some {| roomCode := Scenario.code; playerName := "Bob" |}.
Proof.
  assert ("s1" ≠ "s2") as H0 by discriminate.
  exact (conj H0 (create_then_join init "s1" "s2" "Alice" "Bob" numeral H0)).
Defined.

(** X11.  What [makeMove] broadcasts for a socket that is bound to a
    stored room.  When the engine returns [false] nothing is sent and
    the maps are what they were.  When it returns [true] the room is
    sent [moveMade] with the index, the marker that was on turn, and the
    board, turn and flag after the move; if the game is then off,
    [gameOver] follows with the recorded winner and the board, with no
    name for a draw and otherwise the name of a participant whose symbol
    is the winner's. *)
Theorem makeMove_broadcast
    (st : state) (socket : string) (index : Z) (data : playerData)
    (room : room) (ok : bool) (g : TicTacToeGame) :
  players st !! socket = Some data →
  rooms st !! roomCode data = Some room →
  Game.makeMove index socket (game room) = Normal (ok, g) →
  let made := (ToRoom (roomCode data),
               moveMade index (currentPlayer (game room)) (board g)
                        (currentPlayer g) (gameActive g)) in
  ∃ out, handle (MakeMove socket index) st
         = Normal (with_game st (roomCode data) room g, out)
    ∧ (ok = false → out = [] ∧ with_game st (roomCode data) room g = st)
    ∧ (ok = true → gameActive g = true → out = [made])
    ∧ (ok = true → gameActive g = false →
       ∃ winnerName,
         out = [ made; (ToRoom (roomCode data),
                        gameOver (winner g) winnerName (board g)) ]
         ∧ (winner g = Draw → winnerName = None)
         ∧ (∀ m, winner g = Won m →
                 ∃ id q, obj_get (Game.players g) id = Some q
                         ∧ symbol q = m ∧ winnerName = Some (name q))).
Proof.
  intros Hdata Hroom Hmove made.
  simpl. unfold on_makeMove. rewrite Hdata, Hroom, Hmove. unfold_bind.
  fold (with_game st (roomCode data) room g).
  destruct ok.
  - pose proof Hmove as Hm.
    apply makeMove_true in Hm as (_ & _ & p & Hp & Hsym & _ & Hplayers & _).
    unfold obj_read. rewrite Hplayers, Hp, Hsym. fold made.
    destruct (gameActive g) eqn:Hactive; simpl.
    { exists [made]. split; [reflexivity|]. split; [done|]. split; done. }
    case_bool_decide as Hdraw.
    { eexists. split; [reflexivity|]. split; [done|]. split; [done|].
      intros _ _. exists None. split; [reflexivity|]. split; [done|].
      intros m Hm. congruence. }
    destruct (winner_name_found _ _ _ _ Hmove Hactive Hdraw) as [w Hw].
    rewrite Hw. eexists. split; [reflexivity|]. split; [done|]. split; [done|].
    intros _ _. exists (Some w). split; [reflexivity|]. split; [done|].
    intros m Hm.
    apply winner_name_inv in Hw as (_ & id & _ & q & _ & Hq & Hwon & -> & _).
    exists id, q. rewrite Hm in Hwon. rewrite <- Hplayers.
    split; [done|]. split; [congruence|done].
  - exists []. split; [done|]. split; [|done]. intros _. split; [done|].
    apply makeMove_false in Hmove as ->.
    unfold with_game. destruct st as [rs ps], room as [g0 members].
    simpl in *. f_equal. by apply insert_id.
Qed.

Lemma makeMove_broadcast_witness :
  players paired_state !! "s1"
  = Some {| roomCode := Scenario.code; playerName := "Alice" |}
  ∧ rooms paired_state !! Scenario.code
    = Some {| game := started; room_players := ["s1"; "s2"] |}
  ∧ Game.makeMove 4 "s1" started = Normal (true, centre_opened)
  ∧ ∃ st', handle (MakeMove "s1" 4) paired_state
           = Normal (st', [ (ToRoom Scenario.code,
                             moveMade 4 X (board centre_opened) O true) ]).
Proof.
  assert (players paired_state !! "s1"
          = Some {| roomCode := Scenario.code; playerName := "Alice" |}) as H0
    by reflexivity.
  assert (rooms paired_state !! Scenario.code
          = Some {| game := started; room_players := ["s1"; "s2"] |}) as H1
    by reflexivity.
  assert (Game.makeMove 4 "s1" started = Normal (true, centre_opened)) as H2
    by reflexivity.
  split; [exact H0|]. split; [exact H1|]. split; [exact H2|].
  destruct (makeMove_broadcast paired_state "s1" 4 _ _ _ _ H0 H1 H2)
    as (out & Hstep & _ & Hon & _).
  eexists. rewrite Hstep. by rewrite (Hon eq_refl eq_refl).
Defined.

(** X12.  The name that [gameOver] reports is the name of the first
    entry of [game.players], in insertion order, whose symbol is the
    recorded winner: no entry before it has that symbol.  It need not be
    the entry of the socket that moved. *)
Theorem winner_name_first_entry (g : TicTacToeGame) (n : string) :
  winner_name g = Normal n →
  ∃ before id after q,
    (Game.players g).*1 = before ++ id :: after
    ∧ obj_get (Game.players g) id = Some q
    ∧ Won (symbol q) = winner g
    ∧ n = name q
    ∧ ∀ id' q', id' ∈ before →
        obj_get (Game.players g) id' = Some q' → Won (symbol q') ≠ winner g.
Proof.
  intros (before & id & after & q & Hkeys & Hq & Hwon & -> & Hbefore)
    %winner_name_inv.
  exists before, id, after, q. repeat split; try done.
  intros id' q' Hin. rewrite Forall_forall in Hbefore. by apply Hbefore.
Qed.

Lemma winner_name_first_entry_witness :
  winner_name replaced_guest_won = Normal "Bob"
  ∧ ∃ before id after q,
      (Game.players replaced_guest_won).*1 = before ++ id :: after
      ∧ obj_get (Game.players replaced_guest_won) id = Some q
      ∧ Won (symbol q) = winner replaced_guest_won
      ∧ "Bob" = name q
      ∧ ∀ id' q', id' ∈ before →
          obj_get (Game.players replaced_guest_won) id' = Some q' →
          Won (symbol q') ≠ winner replaced_guest_won.
Proof.
  assert (winner_name replaced_guest_won = Normal "Bob") as H0
    by reflexivity.
  exact (conj H0 (winner_name_first_entry replaced_guest_won "Bob" H0)).
Defined.

(** X13.  Once [disconnect] has been handled for a socket, a later
    [makeMove], [resetGame] or [disconnect] from that socket changes
    neither map and sends nothing. *)
Theorem events_after_disconnect
    (st st' : state) (socket : string) (out : list emission) (index : Z) :
  handle (Disconnect socket) st = Normal (st', out) →
  handle (MakeMove socket index) st' = Normal (st', [])
  ∧ handle (ResetGame socket) st' = Normal (st', [])
  ∧ handle (Disconnect socket) st' = Normal (st', []).
Proof.
  intros H. simpl in H.
  assert (players st' !! socket = None) as Hgone.
  { unfold on_disconnect in H.
    destruct (players st !! socket) as [data|] eqn:Hdata;
      [|by simplify_eq].
    destruct (rooms st !! roomCode data); simplify_eq; simpl;
      apply lookup_delete_eq. }
  simpl. unfold on_makeMove, on_resetGame, on_disconnect.
  by rewrite Hgone.
Qed.

Lemma events_after_disconnect_witness :
  ∃ st' out,
    handle (Disconnect "s2") paired_state = Normal (st', out)
    ∧ handle (MakeMove "s2" 4) st' = Normal (st', [])
    ∧ handle (ResetGame "s2") st' = Normal (st', [])
    ∧ handle (Disconnect "s2") st' = Normal (st', []).
Proof.
  eexists _, _. split; [reflexivity|].
  exact (events_after_disconnect paired_state _ "s2" _ 4 eq_refl).
Defined.

(** X16.  [resetGame] from a socket that is bound to a stored room puts
    the reset game into that room and sends the room [gameReset] with
    the empty board, 'X' on turn and the game on; the members and the
    participants of the room, every other room and every binding are
    what they were, and a second [resetGame] changes nothing more. *)
Theorem resetGame_broadcast
    (st : state) (socket : string) (data : playerData) (room : room) :
  players st !! socket = Some data →
  rooms st !! roomCode data = Some room →
  let st' := with_game st (roomCode data) room (reset (game room)) in
  let out := [ (ToRoom (roomCode data), gameReset empty_board X true) ] in
  handle (ResetGame socket) st = Normal (st', out)
  ∧ handle (ResetGame socket) st' = Normal (st', out)
  ∧ (∀ code, code ≠ roomCode data → rooms st' !! code = rooms st !! code)
  ∧ players st' = players st
  ∧ rooms st' !! roomCode data
    = Some {| game := reset (game room);
              room_players := room_players room |}
  ∧ Game.players (reset (game room)) = Game.players (game room).
Proof.
  intros Hdata Hroom st' out.
  assert (rooms st' !! roomCode data
          = Some {| game := reset (game room);
                    room_players := room_players room |}) as Hroom'
    by apply lookup_insert_eq.
  split. { simpl. unfold on_resetGame. by rewrite Hdata, Hroom. }
  split.
  { simpl. unfold on_resetGame.
    change (players st') with (players st). rewrite Hdata, Hroom'.
    simpl. unfold st', with_game. simpl.
    by rewrite insert_insert_eq. }
  split. { intros code Hne. by apply lookup_insert_ne. }
  done.
Qed.

Lemma resetGame_broadcast_witness :
  players won_game_state !! "s2"
  = Some {| roomCode := Scenario.code; playerName := "Bob" |}
  ∧ rooms won_game_state !! Scenario.code = Some won_game_room
  ∧ handle (ResetGame "s2") won_game_state
    = Normal (with_game won_game_state Scenario.code won_game_room
                (reset top_row_won),
              [ (ToRoom Scenario.code, gameReset empty_board X true) ]).
Proof.
  assert (players won_game_state !! "s2"
          = Some {| roomCode := Scenario.code; playerName := "Bob" |}) as H0
    by reflexivity.
  assert (rooms won_game_state !! Scenario.code = Some won_game_room) as H1
    by reflexivity.
  split; [exact H0|]. split; [exact H1|].
  exact (proj1 (resetGame_broadcast won_game_state "s2" _ won_game_room
                  H0 H1)).
Defined.

(** X17.  [joinRoom] into a room that has one member, who has an entry
    in [game.players], is accepted with the position as it stands: the
    board, the turn and the recorded winner of the game are kept, the
    game is switched on, the joiner is appended to the members and
    entered with symbol 'O' and no host flag, and the joiner is told
    the name under the first member's entry. *)
Theorem joinRoom_accepts
    (st : state) (socket code playerName first : string)
    (room : room) (q : player) :
  rooms st !! code = Some room →
  room_players room = [first] →
  obj_get (Game.players (game room)) first = Some q →
  let guest := {| name := playerName; symbol := O; isHost := false |} in
  let g := set_gameActive true (set_player socket guest (game room)) in
  let opponentName := if decide (socket = first) then playerName else name q in
  handle (JoinRoom socket code playerName) st
  = Normal ({| rooms := <[code := {| game := g;
                                     room_players := [first; socket] |}]>
                         (rooms st);
               players := <[socket := {| roomCode := code;
                                         playerName := playerName |}]>
                            (players st) |},
            [ (ToSocket socket, roomJoined code O playerName opponentName);
              (ToOthers socket code, opponentJoined playerName);
              (ToRoom code,
               gameState (board (game room)) (currentPlayer (game room))
                         true (Game.players g)) ])
  ∧ board g = board (game room)
  ∧ currentPlayer g = currentPlayer (game room)
  ∧ winner g = winner (game room)
  ∧ gameActive g = true
  ∧ obj_get (Game.players g) socket = Some guest.
Proof.
  intros Hroom Hmembers Hq guest g opponentName.
  split; [|repeat split; try done; apply obj_get_set_eq].
  simpl. unfold on_joinRoom. rewrite Hroom, Hmembers. simpl.
  unfold obj_read. unfold opponentName.
  destruct (decide (socket = first)) as [->|Hne].
  - rewrite obj_get_set_eq. done.
  - rewrite obj_get_set_ne, Hq by done. done.
Qed.

Lemma joinRoom_accepts_witness :
  rooms left_alone_state !! Scenario.code
  = Some {| game := set_gameActive false top_row_won;
            room_players := ["s1"] |}
  ∧ obj_get (Game.players (set_gameActive false top_row_won)) "s1"
    = Some alice
  ∧ ∃ st' out, handle (JoinRoom "s3" Scenario.code "Carol") left_alone_state
               = Normal (st', out)
      ∧ rooms st' !! Scenario.code
        = Some {| game := rejoined_game; room_players := ["s1"; "s3"] |}.
Proof.
  assert (rooms left_alone_state !! Scenario.code
          = Some {| game := set_gameActive false top_row_won;
                    room_players := ["s1"] |}) as H0 by reflexivity.
  assert (obj_get (Game.players (set_gameActive false top_row_won)) "s1"
          = Some alice) as H1 by reflexivity.
  split; [exact H0|]. split; [exact H1|].
  eexists _, _. split.
  - exact (proj1 (joinRoom_accepts left_alone_state "s3" Scenario.code
                    "Carol" "s1" _ alice H0 eq_refl H1)).
  - reflexivity.
Defined.

End ServerInvariants.

(** * Further properties of the room code *)

Module RoomCodeInvariants.

Import RoomCode RoomCodeFacts.

Lemma substring_prefix (digits rest : string) (n : nat) :
  String.length digits = n →
  String.substring 0 n (digits +:+ rest) = digits.
Proof.
  revert n. induction digits as [|c digits IH]; intros n Hn; simpl in *.
  - subst. by destruct rest.
  - subst. simpl. by rewrite IH.
Qed.

(** X14.  A room code never has more than six characters; it has six
    exactly when the numeral has at least eight, that is six digits
    after ["0."], and it is empty when the numeral has at most two. *)
Theorem generateRoomCode_size (random36 : string) :
  (String.length (generateRoomCode random36) ≤ 6)%nat
  ∧ (String.length (generateRoomCode random36) = 6%nat
     ↔ (8 ≤ String.length random36)%nat)
  ∧ ((String.length random36 ≤ 2)%nat → generateRoomCode random36 = "").
Proof.
  pose proof (generateRoomCode_length random36) as Hlen.
  split; [lia|]. split; [split; lia|].
  intros Hshort.
  destruct (generateRoomCode random36) eqn:Hcode; [done|].
  cbn [String.length] in Hlen. lia.
Qed.

(** X15.  For a numeral with at least six digits after ["0."] the code is
    the first six of them in upper case, whatever follows them: it has
    the intended format when they are digits or lower-case letters, and
    two draws that agree on their first six digits get the same code. *)
Theorem generateRoomCode_six_digits (digits rest : string) :
  String.length digits = 6%nat →
  generateRoomCode ("0." +:+ digits +:+ rest) = toUpperCase digits
  ∧ (all_chars lower_alnum digits = true →
     well_formed_code (generateRoomCode ("0." +:+ digits +:+ rest)))
  ∧ ∀ rest', generateRoomCode ("0." +:+ digits +:+ rest')
             = generateRoomCode ("0." +:+ digits +:+ rest).
Proof.
  intros Hlen.
  assert (∀ r, generateRoomCode ("0." +:+ digits +:+ r) = toUpperCase digits)
    as Hcode.
  { intros r. unfold generateRoomCode, substring.
    change (String.substring (2 `min` 8) (2 `max` 8 - 2 `min` 8)
              ("0." +:+ digits +:+ r))
      with (String.substring 0 6 (digits +:+ r)).
    by rewrite substring_prefix. }
  split; [apply Hcode|]. split.
  - intros Hdigits. rewrite Hcode. split.
    + by rewrite toUpperCase_length.
    + by apply toUpperCase_alnum.
  - intros rest'. by rewrite !Hcode.
Qed.

Lemma generateRoomCode_six_digits_witness :
  String.length "4fzyo8" = 6%nat
  ∧ generateRoomCode ("0." +:+ "4fzyo8" +:+ "2mvyr") = "4FZYO8"
  ∧ well_formed_code (generateRoomCode ("0." +:+ "4fzyo8" +:+ "2mvyr")).
Proof.
  assert (String.length "4fzyo8" = 6%nat) as H0 by reflexivity.
  destruct (generateRoomCode_six_digits "4fzyo8" "2mvyr" H0)
    as (Hcode & Hformat & _).
  split; [exact H0|]. split; [exact Hcode|]. exact (Hformat eq_refl).
Defined.

End RoomCodeInvariants.
